(** * filter-data: the property list route and the client's filter state

    A shallow embedding of

    - the list route [GET] (query parsing, filter, sort, paginate),
    - the client component [PropertyFilterSystem] of [property.tsx]
      (the query builder [buildQuery], the state helpers
      [updateFilter], [updateArrayFilter], [toggleSort], [changePage],
      the filter badge and the pagination buttons), and
    - the query object of the proxy route [handler] and the generic
      query builder of the walkthrough,

    followed by the properties of them stated in the specification.

    Conventions of the embedding.

    - A JavaScript string is a [string]; its characters are read as code
      units below 256.
    - A JavaScript number is a [num]: [NaN], the two infinities, or an
      exact rational.  Rounding to IEEE doubles and the sign of zero are
      not modelled: the arithmetic is JavaScript's on the safe integers
      and wherever no result is rounded, and a property that rounding or
      a negative zero would change says in which range it holds.
    - A thrown [TypeError] is the [Throw] case of [result].
    - [Array.prototype.sort] is the stable sort the language requires,
      written as an insertion sort.  The language fixes the order only
      for a consistent comparison function; [Route.may_sort] says what
      an engine may answer otherwise.
    - [URLSearchParams] is the ordered list of its key/value pairs;
      serialising it into the URL and reading [searchParams] back on the
      server gives the same list of pairs. *)

From Stdlib Require Import ZArith QArith Qround Qreduction Qcanon.
From Stdlib Require Import Ascii String DecimalString HexadecimalString.
From Stdlib Require Import Decimal Hexadecimal DecimalN HexadecimalN Sorted.
From stdpp Require Import base tactics option list gmap strings.

Local Open Scope Z_scope.
Local Open Scope string_scope.

(** ** Errors *)

Inductive result (A : Type) : Type :=
| Ok (a : A)
| Throw (e : string).
Arguments Ok {A} a.
Arguments Throw {A} e.

#[global] Instance result_ret : MRet result := fun A a => Ok a.
#[global] Instance result_bind : MBind result := fun A B k m =>
  match m with
  | Ok a => k a
  | Throw e => Throw e
  end.

#[global] Instance result_fmap : FMap result := fun A B f m =>
  match m with
  | Ok a => Ok (f a)
  | Throw e => Throw e
  end.

Definition TypeError : string := "TypeError".

(** ** JavaScript strings *)

Module JsString.

(** [WhiteSpace] and [LineTerminator] code units below 256. *)
Definition is_space (c : ascii) : bool :=
  let n := N_of_ascii c in
  ((9 <=? n) && (n <=? 13) || (n =? 32) || (n =? 160))%N.

Fixpoint trimStart (s : string) : string :=
  match s with
  | String c s' => if is_space c then trimStart s' else s
  | EmptyString => EmptyString
  end.

Fixpoint trimEnd (s : string) : string :=
  match s with
  | String c s' =>
      match trimEnd s' with
      | EmptyString => if is_space c then EmptyString else String c EmptyString
      | t => String c t
      end
  | EmptyString => EmptyString
  end.

Definition trim (s : string) : string := trimEnd (trimStart s).

(** Upper-case letters below 256: A-Z, and U+00C0-U+00DE but U+00D7. *)
Definition lower_char (c : ascii) : ascii :=
  let n := N_of_ascii c in
  if ((65 <=? n) && (n <=? 90)
      || (192 <=? n) && (n <=? 222) && negb (n =? 215))%N
  then ascii_of_N (n + 32) else c.

Fixpoint toLowerCase (s : string) : string :=
  match s with
  | String c s' => String (lower_char c) (toLowerCase s')
  | EmptyString => EmptyString
  end.

Fixpoint startsWith (s p : string) : bool :=
  match p, s with
  | EmptyString, _ => true
  | String b p', String a s' => if Ascii.eqb a b then startsWith s' p' else false
  | String _ _, EmptyString => false
  end.

(** [s.includes(sub)]: [sub] occurs in [s] at some position. *)
Fixpoint includes (s sub : string) : bool :=
  startsWith s sub ||
  match s with
  | String _ s' => includes s' sub
  | EmptyString => false
  end.

(** [s.split(sep)] for a one-character separator. *)
Fixpoint split (sep : ascii) (s : string) : list string :=
  match s with
  | EmptyString => [EmptyString]
  | String c s' =>
      if Ascii.eqb c sep then EmptyString :: split sep s'
      else match split sep s' with
           | x :: xs => String c x :: xs
           | [] => [String c EmptyString]
           end
  end.

(** [l.join(sep)] on an array of strings. *)
Fixpoint join (sep : string) (l : list string) : string :=
  match l with
  | [] => EmptyString
  | [x] => x
  | x :: l' => x ++ sep ++ join sep l'
  end.

(** [[...s]]: the characters of [s], each as a string. *)
Fixpoint chars (s : string) : list string :=
  match s with
  | String c s' => String c EmptyString :: chars s'
  | EmptyString => []
  end.

(** A string is truthy when it is not empty. *)
Definition truthy (s : string) : bool :=
  match s with EmptyString => false | _ => true end.

End JsString.

(** ** JavaScript numbers *)

Inductive num : Type :=
| NaN
| PInf
| NInf
| Fin (q : Q).

Module JsNumber.

(** Finite results are kept in lowest terms, so that equal numbers are
    equal terms. *)
Definition fin (q : Q) : num := Fin (Qred q).
Definition of_Z (z : Z) : num := Fin (inject_Z z).
Definition of_nat (n : nat) : num := of_Z (Z.of_nat n).

Definition sgn (q : Q) : comparison := (Qnum q ?= 0)%Z.

Definition add (a b : num) : num :=
  match a, b with
  | NaN, _ | _, NaN => NaN
  | PInf, NInf | NInf, PInf => NaN
  | PInf, _ | _, PInf => PInf
  | NInf, _ | _, NInf => NInf
  | Fin x, Fin y => fin (x + y)
  end.

Definition sub (a b : num) : num :=
  match a, b with
  | NaN, _ | _, NaN => NaN
  | PInf, PInf | NInf, NInf => NaN
  | PInf, _ | _, NInf => PInf
  | NInf, _ | _, PInf => NInf
  | Fin x, Fin y => fin (x - y)
  end.

(** The infinity with the sign of [c], [NaN] for a zero factor. *)
Definition inf_of_sign (c : comparison) : num :=
  match c with
  | Gt => PInf
  | Lt => NInf
  | Eq => NaN
  end.

Definition mul (a b : num) : num :=
  match a, b with
  | NaN, _ | _, NaN => NaN
  | PInf, PInf | NInf, NInf => PInf
  | PInf, NInf | NInf, PInf => NInf
  | PInf, Fin y | Fin y, PInf => inf_of_sign (sgn y)
  | NInf, Fin y | Fin y, NInf => inf_of_sign (CompOpp (sgn y))
  | Fin x, Fin y => fin (x * y)
  end.

Definition div (a b : num) : num :=
  match a, b with
  | NaN, _ | _, NaN => NaN
  | (PInf | NInf), (PInf | NInf) => NaN
  | PInf, Fin y => match sgn y with Lt => NInf | _ => PInf end
  | NInf, Fin y => match sgn y with Lt => PInf | _ => NInf end
  | Fin _, (PInf | NInf) => Fin 0
  | Fin x, Fin y =>
      match sgn y with
      | Eq => inf_of_sign (sgn x)
      | _ => fin (x / y)
      end
  end.

(** [Math.ceil] *)
Definition ceil (a : num) : num :=
  match a with
  | Fin q => of_Z (Qceiling q)
  | _ => a
  end.

(** [a <= b], [a >= b], [a < b], [a > b]: false as soon as one side is
    [NaN]. *)
Definition le (a b : num) : bool :=
  match a, b with
  | NaN, _ | _, NaN => false
  | NInf, _ | _, PInf => true
  | PInf, _ | _, NInf => false
  | Fin x, Fin y => Qle_bool x y
  end.

Definition lt (a b : num) : bool :=
  match a, b with
  | NaN, _ | _, NaN => false
  | PInf, _ | _, NInf => false
  | NInf, _ | _, PInf => true
  | Fin x, Fin y => negb (Qle_bool y x)
  end.

Definition ge (a b : num) : bool := le b a.
Definition gt (a b : num) : bool := lt b a.

(** Truncation towards zero. *)
Definition trunc (q : Q) : Z := Z.quot (Qnum q) (Zpos (Qden q)).

(** ** Printing: [Number.prototype.toString]

    Integers print as their decimal digits; a number with a finite
    decimal expansion prints that expansion.  (JavaScript switches to
    exponent notation from 1e21 on and below 1e-6.) *)

Definition digits_of_N (n : N) : string :=
  DecimalString.NilEmpty.string_of_uint (N.to_uint n).

Fixpoint frac_digits (fuel : nat) (r d : N) : string :=
  match fuel with
  | O => EmptyString
  | S fuel' =>
      if (r =? 0)%N then EmptyString
      else digits_of_N (r * 10 / d) ++ frac_digits fuel' (r * 10 mod d) d
  end.

Definition unsigned_toString (q : Q) : string :=
  let n := Z.to_N (Qnum q) in
  let d := Npos (Qden q) in
  let ip := digits_of_N (n / d) in
  match frac_digits (Pos.size_nat (Qden q)) (n mod d) d with
  | EmptyString => ip
  | fp => ip ++ "." ++ fp
  end.

Definition toString (a : num) : string :=
  match a with
  | NaN => "NaN"
  | PInf => "Infinity"
  | NInf => "-Infinity"
  | Fin q =>
      let q := Qred q in
      match sgn q with
      | Lt => "-" ++ unsigned_toString (- q)
      | _ => unsigned_toString q
      end
  end.

(** ** Parsing: [parseInt] and [parseFloat] *)

Definition digit (c : ascii) : option (Decimal.uint -> Decimal.uint) :=
  match c with
  | "0" => Some Decimal.D0 | "1" => Some Decimal.D1
  | "2" => Some Decimal.D2 | "3" => Some Decimal.D3
  | "4" => Some Decimal.D4 | "5" => Some Decimal.D5
  | "6" => Some Decimal.D6 | "7" => Some Decimal.D7
  | "8" => Some Decimal.D8 | "9" => Some Decimal.D9
  | _ => None
  end%char.

(** The longest prefix of decimal digits, and what follows it. *)
Fixpoint span_digits (s : string) : Decimal.uint * string :=
  match s with
  | String c s' =>
      match digit c with
      | Some d => let (u, r) := span_digits s' in (d u, r)
      | None => (Decimal.Nil, s)
      end
  | EmptyString => (Decimal.Nil, EmptyString)
  end.

Definition hex_digit (c : ascii)
  : option (Hexadecimal.uint -> Hexadecimal.uint) :=
  match c with
  | "0" => Some Hexadecimal.D0 | "1" => Some Hexadecimal.D1
  | "2" => Some Hexadecimal.D2 | "3" => Some Hexadecimal.D3
  | "4" => Some Hexadecimal.D4 | "5" => Some Hexadecimal.D5
  | "6" => Some Hexadecimal.D6 | "7" => Some Hexadecimal.D7
  | "8" => Some Hexadecimal.D8 | "9" => Some Hexadecimal.D9
  | "a" | "A" => Some Hexadecimal.Da | "b" | "B" => Some Hexadecimal.Db
  | "c" | "C" => Some Hexadecimal.Dc | "d" | "D" => Some Hexadecimal.Dd
  | "e" | "E" => Some Hexadecimal.De | "f" | "F" => Some Hexadecimal.Df
  | _ => None
  end%char.

Fixpoint span_hex_digits (s : string) : Hexadecimal.uint :=
  match s with
  | String c s' =>
      match hex_digit c with
      | Some d => d (span_hex_digits s')
      | None => Hexadecimal.Nil
      end
  | EmptyString => Hexadecimal.Nil
  end.

(** An optional sign: whether it is [-], and what follows it. *)
Definition strip_sign (s : string) : bool * string :=
  match s with
  | String "-" s' => (true, s')
  | String "+" s' => (false, s')
  | _ => (false, s)
  end.

Definition signed (negative : bool) (n : N) : num :=
  of_Z (if negative then - Z.of_N n else Z.of_N n).

(** What follows a leading [0x] or [0X]. *)
Definition hex_prefix (s : string) : option string :=
  match s with
  | String "0" (String c s') =>
      if Ascii.eqb c "x" || Ascii.eqb c "X" then Some s' else None
  | _ => None
  end.

(** The digits that [parseInt] reads after the sign: hexadecimal ones
    after [0x], decimal ones otherwise; [NaN] when there is none. *)
Definition parse_digits (negative : bool) (s : string) : num :=
  match hex_prefix s with
  | Some s' =>
      match span_hex_digits s' with
      | Hexadecimal.Nil => NaN
      | u => signed negative (N.of_hex_uint u)
      end
  | None =>
      match fst (span_digits s) with
      | Decimal.Nil => NaN
      | u => signed negative (N.of_uint u)
      end
  end.

(** [parseInt(s)], no radix given. *)
Definition parseInt (s : string) : num :=
  let (negative, s1) := strip_sign (JsString.trimStart s) in
  parse_digits negative s1.

(** The exponent part [e], [e+] or [e-] followed by digits; 0 when the
    text does not start with one. *)
Definition exponent (s : string) : Z :=
  match s with
  | String ("e" | "E") s' =>
      let (negative, s'') :=
        match s' with
        | String "-" t => (true, t)
        | String "+" t => (false, t)
        | _ => (false, s')
        end in
      match fst (span_digits s'') with
      | Decimal.Nil => 0
      | u => if negative then - Z.of_N (N.of_uint u) else Z.of_N (N.of_uint u)
      end
  | _ => 0
  end.

(** [m * 10^e] *)
Definition scale (m : N) (e : Z) : Q :=
  match e with
  | Zneg p => Qmake (Z.of_N m) (10 ^ p)
  | _ => inject_Z (Z.of_N m * 10 ^ e)
  end.

Definition decimal (negative : bool) (ip fp : Decimal.uint) (rest : string)
  : num :=
  let m := N.of_uint (Decimal.app ip fp) in
  let e := exponent rest - Z.of_nat (Decimal.nb_digits fp) in
  let q := scale m e in
  fin (if negative then - q else q).

(** [parseFloat(s)]: the longest prefix that is a [StrDecimalLiteral]. *)
Definition parseFloat (s : string) : num :=
  let (negative, s1) := strip_sign (JsString.trimStart s) in
  if JsString.startsWith s1 "Infinity" then
    if negative then NInf else PInf
  else
    let (ip, s2) := span_digits s1 in
    match s2 with
    | String "." s3 =>
        let (fp, s4) := span_digits s3 in
        match ip, fp with
        | Decimal.Nil, Decimal.Nil => NaN
        | _, _ => decimal negative ip fp s4
        end
    | _ =>
        match ip with
        | Decimal.Nil => NaN
        | _ => decimal negative ip Decimal.Nil s2
        end
    end.

(** [ToIntegerOrInfinity] followed by the clamping of a relative index
    into [0 .. len], as [Array.prototype.slice] does for both of its
    arguments. *)
Definition relative_index (len : Z) (a : num) : Z :=
  match a with
  | NaN => 0
  | NInf => 0
  | PInf => len
  | Fin q =>
      let r := trunc q in
      if (r <? 0)%Z then Z.max (len + r) 0 else Z.min r len
  end.

End JsNumber.

(** [l.slice(start, end)] *)
Definition slice {A} (l : list A) (start end_ : num) : list A :=
  let len := Z.of_nat (length l) in
  let k := JsNumber.relative_index len start in
  let final := JsNumber.relative_index len end_ in
  take (Z.to_nat (final - k)) (drop (Z.to_nat k) l).

(** ** The list route: [GET] *)

Module Route.
Import JsString JsNumber.

(** A property object of the fixture.  [None] is a field the object
    does not have (reading it gives [undefined]). *)
Record property : Type := {
  p_name : option string;
  p_location : option string;
  p_status : option string;
  p_type : option string;
  p_price : option num;
  p_rating : option num;
  p_last_updated : option string
}.

(** [searchParams.get(k)]: the value of the first pair with key [k],
    [None] for [null]. *)
Fixpoint get (searchParams : list (string * string)) (k : string)
  : option string :=
  match searchParams with
  | [] => None
  | (k', v) :: rest => if String.eqb k' k then Some v else get rest k
  end.

(** [x || d] for [x] a string, [null] or [undefined]. *)
Definition or_else (x : option string) (d : string) : string :=
  match x with
  | Some s => if truthy s then s else d
  | None => d
  end.

(** The constants the route reads from the query string. *)
Record params : Type := {
  search : string;
  sort_by : string;
  order : string;
  status : list string;
  type : list string;
  minPrice : num;
  maxPrice : num;
  page : num;
  limit : num
}.

(** Reading the constants:
<<
  const search = searchParams.get('search')?.toLowerCase() || ''
  const sort_by = searchParams.get('sort_by') || 'last_updated'
  const order = searchParams.get('order') || 'desc'
  const status = searchParams.get('status')?.split(',') || []
  const type = searchParams.get('type')?.split(',') || []
  const minPrice = parseFloat(searchParams.get('min_price') || '0')
  const maxPrice = parseFloat(searchParams.get('max_price') || 'Infinity')
  const page = parseInt(searchParams.get('page') || '1')
  const limit = parseInt(searchParams.get('limit') || '10')
>> *)
Definition parse (searchParams : list (string * string)) : params := {|
  search := or_else (toLowerCase <$> get searchParams "search") "";
  sort_by := or_else (get searchParams "sort_by") "last_updated";
  order := or_else (get searchParams "order") "desc";
  status := default [] (split "," <$> get searchParams "status");
  type := default [] (split "," <$> get searchParams "type");
  minPrice := parseFloat (or_else (get searchParams "min_price") "0");
  maxPrice := parseFloat (or_else (get searchParams "max_price") "Infinity");
  page := parseInt (or_else (get searchParams "page") "1");
  limit := parseInt (or_else (get searchParams "limit") "10")
|}.

(** [ToNumber] of a numeric field: [undefined] becomes [NaN]. *)
Definition to_number (x : option num) : num := default NaN x.

(** [x.toLowerCase()] throws when [x] is [undefined]. *)
Definition toLowerCase_of (x : option string) : result string :=
  match x with
  | Some s => Ok (toLowerCase s)
  | None => Throw TypeError
  end.

(** [arr.includes(x)] for an array of strings: [undefined] is not in it. *)
Definition array_includes (arr : list string) (x : option string) : bool :=
  match x with
  | Some s => existsb (String.eqb s) arr
  | None => false
  end.

(** The callback of [properties.filter]:
<<
  (!search || p.name.toLowerCase().includes(search)
           || p.location.toLowerCase().includes(search)) &&
  (!status.length || status.includes(p.status)) &&
  (!type.length || type.includes(p.type)) &&
  p.price >= minPrice &&
  p.price <= maxPrice
>>
    Only the first clause can throw; when it is false the others are not
    evaluated, and they have no effect to miss. *)
Definition keep (q : params) (p : property) : result bool :=
  searched ←
    (if negb (truthy (search q)) then Ok true
     else
       name ← toLowerCase_of (p_name p);
       if includes name (search q) then Ok true
       else
         location ← toLowerCase_of (p_location p);
         Ok (includes location (search q)));
  Ok (searched
      && (Nat.eqb (length (status q)) 0 || array_includes (status q) (p_status p))
      && (Nat.eqb (length (type q)) 0 || array_includes (type q) (p_type p))
      && ge (to_number (p_price p)) (minPrice q)
      && le (to_number (p_price p)) (maxPrice q)).

(** [arr.filter(f)]: the callback runs on the elements in order, and a
    throw aborts the call. *)
Fixpoint array_filter {A} (f : A -> result bool) (arr : list A)
  : result (list A) :=
  match arr with
  | [] => Ok []
  | x :: rest =>
      b ← f x;
      kept ← array_filter f rest;
      Ok (if b : bool then x :: kept else kept)
  end.

(** [arr.sort(comparefn)], for a comparison function that is consistent
    on the elements of [arr].  The sort is stable; a comparison result
    that is [NaN] counts as [0].  [x], from earlier in the array, stays
    in front of [y] unless [comparefn(x, y) > 0]. *)
Definition in_order (v : num) : bool := negb (gt v (of_Z 0)).

Fixpoint insert {A} (comparefn : A -> A -> num) (x : A) (sorted : list A)
  : list A :=
  match sorted with
  | [] => [x]
  | y :: rest =>
      if in_order (comparefn x y) then x :: y :: rest
      else y :: insert comparefn x rest
  end.

Fixpoint array_sort {A} (comparefn : A -> A -> num) (arr : list A) : list A :=
  match arr with
  | [] => []
  | x :: rest => insert comparefn x (array_sort comparefn rest)
  end.

(** How the sort reads the answer of [comparefn(a, b)]: [a] and [b] are
    equal when it is neither below nor above zero (so also when it is
    [NaN]), [a] is less when it is below zero, greater when it is above
    zero. *)
Definition eq_CF {A} (comparefn : A -> A -> num) (a b : A) : Prop :=
  lt (comparefn a b) (of_Z 0) = false ∧ gt (comparefn a b) (of_Z 0) = false.

Definition lt_CF {A} (comparefn : A -> A -> num) (a b : A) : Prop :=
  lt (comparefn a b) (of_Z 0) = true.

Definition gt_CF {A} (comparefn : A -> A -> num) (a b : A) : Prop :=
  gt (comparefn a b) (of_Z 0) = true.

(** [comparefn] is a consistent comparison function for the elements of
    [arr], in the language's terms: every element equals itself, being
    equal is symmetric and transitive, and so are being less and being
    greater transitive. *)
Definition consistent {A} (comparefn : A -> A -> num) (arr : list A) : Prop :=
  ∀ a b c, a ∈ arr → b ∈ arr → c ∈ arr →
    eq_CF comparefn a a
    ∧ (eq_CF comparefn a b → eq_CF comparefn b a)
    ∧ (eq_CF comparefn a b → eq_CF comparefn b c → eq_CF comparefn a c)
    ∧ (lt_CF comparefn a b → lt_CF comparefn b c → lt_CF comparefn a c)
    ∧ (gt_CF comparefn a b → gt_CF comparefn b c → gt_CF comparefn a c).

(** What [arr.sort(comparefn)] may leave in the array: the elements of
    [arr] in some order, which is the order of the stable sort when
    [comparefn] is consistent on them.  When it is not, the order is the
    engine's choice. *)
Definition may_sort {A} (comparefn : A -> A -> num) (arr out : list A)
  : Prop :=
  out ≡ₚ arr ∧ (consistent comparefn arr → out = array_sort comparefn arr).

(** The object the route hands to [NextResponse.json], with its numbers
    as the route computed them ([JSON.stringify] then writes [null] for
    [NaN] and the infinities). *)
Record response : Type := {
  resp_data : list property;
  resp_total : num;
  resp_page : num;
  resp_totalPages : num
}.

Section with_Date.

(** [new Date(s).getTime()] for a string [s]: the instant it denotes,
    [NaN] when it denotes none. *)
Variable Date_getTime : string -> num.

Definition getTime (x : option string) : num :=
  match x with
  | Some s => Date_getTime s
  | None => NaN
  end.

(** [a[sort_by]] when [sort_by] is ['price'] or ['rating']. *)
Definition field (sort_by : string) (a : property) : num :=
  if String.eqb sort_by "price" then to_number (p_price a)
  else to_number (p_rating a).

(** The callback of [filtered.sort]:
<<
  if (sort_by === 'price' || sort_by === 'rating') {
    return order === 'asc' ? a[sort_by] - b[sort_by] : b[sort_by] - a[sort_by]
  } else if (sort_by === 'last_updated') {
    return order === 'asc'
      ? new Date(a.last_updated).getTime() - new Date(b.last_updated).getTime()
      : new Date(b.last_updated).getTime() - new Date(a.last_updated).getTime()
  }
  return 0
>> *)
Definition comparefn (q : params) (a b : property) : num :=
  if String.eqb (sort_by q) "price" || String.eqb (sort_by q) "rating" then
    if String.eqb (order q) "asc"
    then sub (field (sort_by q) a) (field (sort_by q) b)
    else sub (field (sort_by q) b) (field (sort_by q) a)
  else if String.eqb (sort_by q) "last_updated" then
    if String.eqb (order q) "asc"
    then sub (getTime (p_last_updated a)) (getTime (p_last_updated b))
    else sub (getTime (p_last_updated b)) (getTime (p_last_updated a))
  else of_Z 0.

Definition filtered (q : params) (properties : list property)
  : result (list property) :=
  array_filter (keep q) properties.

(** [filtered.sort(comparefn)], as every engine answers when the
    callback is consistent on the records. *)
Definition sorted (q : params) (arr : list property) : list property :=
  array_sort (comparefn q) arr.

(** [const start = (page - 1) * limit] *)
Definition start (q : params) : num :=
  mul (sub (page q) (of_Z 1)) (limit q).

(** [const paginated = filtered.slice(start, start + limit)] *)
Definition paginated (q : params) (arr : list property) : list property :=
  slice arr (start q) (add (start q) (limit q)).

(** [totalPages: Math.ceil(filtered.length / limit)] *)
Definition totalPages (q : params) (arr : list property) : num :=
  ceil (div (of_nat (length arr)) (limit q)).

(** The route: filter, sort in place, slice, and answer with
    [{ data: paginated, total: filtered.length, page, totalPages }]. *)
Definition GET (properties : list property)
  (searchParams : list (string * string)) : result response :=
  let q := parse searchParams in
  kept ← filtered q properties;
  let arr := sorted q kept in
  Ok {| resp_data := paginated q arr;
        resp_total := of_nat (length arr);
        resp_page := page q;
        resp_totalPages := totalPages q arr |}.

End with_Date.

End Route.

(** ** The client component *)

Module Client.
Import JsString JsNumber.

(** The [filters] state, with the fields and types of its initial
    value. *)
Record FilterState : Type := {
  search : string;
  sortBy : string;
  sortDirection : string;
  status : list string;
  type : list string;
  minPrice : num;
  maxPrice : num;
  page : num
}.

Definition initial : FilterState := {|
  search := "";
  sortBy := "last_updated";
  sortDirection := "desc";
  status := [];
  type := [];
  minPrice := of_Z 0;
  maxPrice := of_Z 1000;
  page := of_Z 1
|}.

(** [params.append(k, v)] *)
Definition append (params : list (string * string)) (k v : string)
  : list (string * string) :=
  (params ++ [(k, v)])%list.

(** The query builder:
<<
  params.append('locale', locale);
  if (filterState.search.trim()) {
    params.append('search', filterState.search.trim());
  }
  params.append('sortBy', filterState.sortBy);
  params.append('sortDirection', filterState.sortDirection);
  if (filterState.status.length > 0) {
    params.append('status', filterState.status.join(','));
  }
  if (filterState.type.length > 0) {
    params.append('type', filterState.type.join(','));
  }
  if (filterState.minPrice > 0) {
    params.append('minPrice', filterState.minPrice.toString());
  }
  if (filterState.maxPrice < 1000) {
    params.append('maxPrice', filterState.maxPrice.toString());
  }
  params.append('page', filterState.page.toString());
  params.append('limit', '10');
>> *)
Definition buildQuery (locale : string) (filterState : FilterState)
  : list (string * string) :=
  let params : list (string * string) := [] in
  let params := append params "locale" locale in
  let params :=
    if truthy (trim (search filterState))
    then append params "search" (trim (search filterState))
    else params in
  let params := append params "sortBy" (sortBy filterState) in
  let params := append params "sortDirection" (sortDirection filterState) in
  let params :=
    if (0 <? length (status filterState))%nat
    then append params "status" (join "," (status filterState))
    else params in
  let params :=
    if (0 <? length (type filterState))%nat
    then append params "type" (join "," (type filterState))
    else params in
  let params :=
    if gt (minPrice filterState) (of_Z 0)
    then append params "minPrice" (toString (minPrice filterState))
    else params in
  let params :=
    if lt (maxPrice filterState) (of_Z 1000)
    then append params "maxPrice" (toString (maxPrice filterState))
    else params in
  let params := append params "page" (toString (page filterState)) in
  let params := append params "limit" "10" in
  params.

(** The state helpers take any key and build the next object with a
    computed key, so for them the state is a JavaScript object: a map
    from keys to values. *)
Inductive value : Type :=
| VStr (s : string)
| VNum (n : num)
| VArr (l : list string).

Definition to_object (f : FilterState) : gmap string value :=
  <["search" := VStr (search f)]>
  (<["sortBy" := VStr (sortBy f)]>
  (<["sortDirection" := VStr (sortDirection f)]>
  (<["status" := VArr (status f)]>
  (<["type" := VArr (type f)]>
  (<["minPrice" := VNum (minPrice f)]>
  (<["maxPrice" := VNum (maxPrice f)]>
  (<["page" := VNum (page f)]> ∅))))))).

(** [prev => ({ ...prev, [key]: value, page: 1 })] *)
Definition updateFilter (key : string) (v : value) (prev : gmap string value)
  : gmap string value :=
  <["page" := VNum (of_Z 1)]> (<[key := v]> prev).

(** The toggle of an array filter:
<<
  prev => ({
    ...prev,
    [key]: prev[key].includes(value)
      ? prev[key].filter(item => item !== value)
      : [...prev[key], value],
    page: 1
  })
>>
    [.includes] exists on arrays and on strings, [.filter] only on
    arrays, and the spread takes an array or the characters of a string;
    every other use throws. *)
Definition updateArrayFilter (key : string) (v : string)
  (prev : gmap string value) : result (gmap string value) :=
  toggled ←
    match prev !! key with
    | Some (VArr l) =>
        if existsb (String.eqb v) l
        then Ok (List.filter (fun item => negb (String.eqb item v)) l)
        else Ok (l ++ [v])%list
    | Some (VStr s) =>
        if includes s v then Throw TypeError else Ok (chars s ++ [v])%list
    | Some (VNum _) | None => Throw TypeError
    end;
  Ok (<["page" := VNum (of_Z 1)]> (<[key := VArr toggled]> prev)).

(** [prev => ({ ...prev,
      sortDirection: prev.sortDirection === 'asc' ? 'desc' : 'asc' })] *)
Definition toggleSort (prev : gmap string value) : gmap string value :=
  <["sortDirection" :=
      VStr (match prev !! "sortDirection" with
            | Some (VStr "asc") => "desc"
            | _ => "asc"
            end)]> prev.

Definition clearFilters : gmap string value := to_object initial.

(** [prev => ({ ...prev, page: newPage })] *)
Definition changePage (newPage : value) (prev : gmap string value)
  : gmap string value :=
  <["page" := newPage]> prev.

End Client.

(** ** Vocabulary of the specification *)

Module Spec.
Import JsString JsNumber.

(** [sub] occurs in [s]. *)
Definition substring (sub s : string) : Prop :=
  ∃ pre post : string, s = pre ++ sub ++ post.

(** The order of numbers; [NaN] is related to nothing. *)
Definition num_le (a b : num) : Prop :=
  match a, b with
  | NaN, _ | _, NaN => False
  | NInf, _ | _, PInf => True
  | PInf, _ | _, NInf => False
  | Fin x, Fin y => (x <= y)%Q
  end.

(** The four clauses of the filter, as the specification words them.
    A field the record lacks satisfies no clause that inspects it. *)
Definition search_clause (q : Route.params) (p : Route.property) : Prop :=
  Route.search q = ""
  ∨ (∃ name, Route.p_name p = Some name
       ∧ substring (toLowerCase (Route.search q)) (toLowerCase name))
  ∨ (∃ location, Route.p_location p = Some location
       ∧ substring (toLowerCase (Route.search q)) (toLowerCase location)).

Definition status_clause (q : Route.params) (p : Route.property) : Prop :=
  Route.status q = [] ∨ ∃ s, Route.p_status p = Some s ∧ s ∈ Route.status q.

Definition type_clause (q : Route.params) (p : Route.property) : Prop :=
  Route.type q = [] ∨ ∃ t, Route.p_type p = Some t ∧ t ∈ Route.type q.

Definition price_clause (q : Route.params) (p : Route.property) : Prop :=
  ∃ price, Route.p_price p = Some price
    ∧ num_le (Route.minPrice q) price ∧ num_le price (Route.maxPrice q).

Definition satisfies (q : Route.params) (p : Route.property) : Prop :=
  search_clause q p ∧ status_clause q p ∧ type_clause q p ∧ price_clause q p.

(** [x.toLowerCase().includes(s)], false when [x] is absent. *)
Definition text_includes (x : option string) (s : string) : bool :=
  match x with
  | Some t => includes (toLowerCase t) s
  | None => false
  end.

(** The four clauses as one boolean. *)
Definition satisfiesb (q : Route.params) (p : Route.property) : bool :=
  (negb (truthy (Route.search q))
   || text_includes (Route.p_name p) (Route.search q)
   || text_includes (Route.p_location p) (Route.search q))
  && (Nat.eqb (length (Route.status q)) 0
      || Route.array_includes (Route.status q) (Route.p_status p))
  && (Nat.eqb (length (Route.type q)) 0
      || Route.array_includes (Route.type q) (Route.p_type p))
  && ge (Route.to_number (Route.p_price p)) (Route.minPrice q)
  && le (Route.to_number (Route.p_price p)) (Route.maxPrice q).

(** A record as the data model has it: with a name and a location. *)
Definition has_text (p : Route.property) : Prop :=
  is_Some (Route.p_name p) ∧ is_Some (Route.p_location p).

(** [x] occurs in [l] somewhere before [y]. *)
Definition precedes {A} (x y : A) (l : list A) : Prop :=
  ∃ l1 l2 l3 : list A, l = (l1 ++ x :: l2 ++ y :: l3)%list.

(** Two sort keys compare equal: neither is below the other. *)
Definition tie (x y : num) : Prop := lt x y = false ∧ lt y x = false.

Definition recognized (sort_by : string) : Prop :=
  sort_by = "price" ∨ sort_by = "rating" ∨ sort_by = "last_updated".

(** The sort key of a record under a recognized sort field. *)
Definition sort_key (Date_getTime : string -> num) (q : Route.params)
  (p : Route.property) : num :=
  if String.eqb (Route.sort_by q) "last_updated"
  then Route.getTime Date_getTime (Route.p_last_updated p)
  else Route.field (Route.sort_by q) p.

(** The keys of a query string. *)
Definition keys (params : list (string * string)) : list string :=
  map fst params.

(** No value of the array contains the separator of [join]. *)
Definition comma_free (l : list string) : Prop :=
  Forall (fun s => includes s "," = false) l.

End Spec.

(** ** Fixtures used in the examples *)

Module Fixture.
Import JsNumber.

Definition villa : Route.property := {|
  Route.p_name := Some "Luxury Sunset Villa";
  Route.p_location := Some "Siem Reap, Cambodia";
  Route.p_status := Some "active";
  Route.p_type := Some "villa";
  Route.p_price := Some (of_Z 100);
  Route.p_rating := Some (Fin (9 # 2));
  Route.p_last_updated := Some "2024-01-01"
|}.

Definition flat : Route.property := {|
  Route.p_name := Some "City Flat";
  Route.p_location := Some "Phnom Penh, Cambodia";
  Route.p_status := Some "draft";
  Route.p_type := Some "apartment";
  Route.p_price := Some (of_Z 50);
  Route.p_rating := Some (of_Z 4);
  Route.p_last_updated := Some "2024-02-01"
|}.

(** A record without a name. *)
Definition unnamed : Route.property := {|
  Route.p_name := None;
  Route.p_location := Some "Kampot, Cambodia";
  Route.p_status := Some "active";
  Route.p_type := Some "house";
  Route.p_price := Some (of_Z 80);
  Route.p_rating := Some (of_Z 5);
  Route.p_last_updated := Some "2024-03-01"
|}.

(** A record with a province and a country, as the table shows them, but
    without a [location]. *)
Definition no_location : Route.property := {|
  Route.p_name := Some "River House";
  Route.p_location := None;
  Route.p_status := Some "active";
  Route.p_type := Some "house";
  Route.p_price := Some (of_Z 120);
  Route.p_rating := Some (of_Z 4);
  Route.p_last_updated := Some "2024-05-01"
|}.

(** A record with the price of [villa]. *)
Definition cottage : Route.property := {|
  Route.p_name := Some "Stone Cottage";
  Route.p_location := Some "Kep, Cambodia";
  Route.p_status := Some "archived";
  Route.p_type := Some "house";
  Route.p_price := Some (of_Z 100);
  Route.p_rating := Some (of_Z 3);
  Route.p_last_updated := Some "2024-04-01"
|}.

(** A record whose status is the empty string. *)
Definition unlisted : Route.property := {|
  Route.p_name := Some "Garden Studio";
  Route.p_location := Some "Battambang, Cambodia";
  Route.p_status := Some "";
  Route.p_type := Some "apartment";
  Route.p_price := Some (of_Z 40);
  Route.p_rating := Some (of_Z 4);
  Route.p_last_updated := Some "2024-06-01"
|}.

(** A record that has a price and nothing else. *)
Definition priced (n : Z) : Route.property := {|
  Route.p_name := None;
  Route.p_location := None;
  Route.p_status := None;
  Route.p_type := None;
  Route.p_price := Some (of_Z n);
  Route.p_rating := None;
  Route.p_last_updated := None
|}.

(** The answer to a query for the records from 60 up, out of [villa]
    and [flat]. *)
Definition villa_only : Route.response := {|
  Route.resp_data := [villa];
  Route.resp_total := of_Z 1;
  Route.resp_page := of_Z 1;
  Route.resp_totalPages := of_Z 1
|}.

(** A query whose numeric parameters are not numbers. *)
Definition garbled : list (string * string) :=
  [("min_price", "abc"); ("max_price", "xyz"); ("page", "one");
   ("limit", "ten")].

(** A query for page -1 of pages of one record. *)
Definition page_minus_one : list (string * string) :=
  [("page", "-1"); ("limit", "1")].

(** A clock that knows no date. *)
Definition no_date (s : string) : num := NaN.

Definition page3 : Client.FilterState := {|
  Client.search := " Villa ";
  Client.sortBy := "price";
  Client.sortDirection := "asc";
  Client.status := ["active"; "draft"];
  Client.type := ["villa"];
  Client.minPrice := of_Z 10;
  Client.maxPrice := of_Z 500;
  Client.page := of_Z 3
|}.

Definition blank_search : Client.FilterState := {|
  Client.search := " ";
  Client.sortBy := "last_updated";
  Client.sortDirection := "desc";
  Client.status := [];
  Client.type := [];
  Client.minPrice := of_Z 0;
  Client.maxPrice := of_Z 1000;
  Client.page := of_Z 1
|}.

End Fixture.

(** ** The proxy route: [handler] *)

Module Handler.
Import JsString JsNumber.

(** The object sent to the backend.  [None] is a key the object does not
    have. *)
Record MedusaQuery : Type := {
  locale : option string;
  limit : num;
  offset : num;
  search : option string;
  sortBy : option string;
  sortDirection : option string;
  status : option (list string);
  type : option (list string);
  minPrice : option num;
  maxPrice : option num
}.

(** [if (x) medusaQuery.k = f(x)] for a string [x] *)
Definition when_set {A} (x : string) (f : string -> A) : option A :=
  if truthy x then Some (f x) else None.

(** The query object the handler builds from [req.query], whose values
    are strings:
<<
  const { locale } = req.query;
  const { search = '', sortBy = 'last_updated', sortDirection = 'desc',
          status = '', type = '', minPrice = '', maxPrice = '',
          page = '1', limit = '10' } = req.query;
  const medusaQuery = {
    locale,
    limit: parseInt(limit),
    offset: (parseInt(page) - 1) * parseInt(limit),
  };
  if (search) medusaQuery.search = search;
  if (sortBy) medusaQuery.sortBy = sortBy;
  if (sortDirection) medusaQuery.sortDirection = sortDirection;
  if (status) medusaQuery.status = status.split(',');
  if (type) medusaQuery.type = type.split(',');
  if (minPrice) medusaQuery.minPrice = parseInt(minPrice);
  if (maxPrice) medusaQuery.maxPrice = parseInt(maxPrice);
>>
    A default of the destructuring stands in for a key that is absent,
    not for one that is empty. *)
Definition medusaQuery (query : gmap string string) : MedusaQuery :=
  let q_search := default "" (query !! "search") in
  let q_sortBy := default "last_updated" (query !! "sortBy") in
  let q_sortDirection := default "desc" (query !! "sortDirection") in
  let q_status := default "" (query !! "status") in
  let q_type := default "" (query !! "type") in
  let q_minPrice := default "" (query !! "minPrice") in
  let q_maxPrice := default "" (query !! "maxPrice") in
  let q_page := default "1" (query !! "page") in
  let q_limit := default "10" (query !! "limit") in
  {| locale := query !! "locale";
     limit := parseInt q_limit;
     offset := mul (sub (parseInt q_page) (of_Z 1)) (parseInt q_limit);
     search := when_set q_search id;
     sortBy := when_set q_sortBy id;
     sortDirection := when_set q_sortDirection id;
     status := when_set q_status (split ",");
     type := when_set q_type (split ",");
     minPrice := when_set q_minPrice parseInt;
     maxPrice := when_set q_maxPrice parseInt |}.

(** [req.query] for a query string in which no key occurs twice. *)
Definition req_query (searchParams : list (string * string))
  : gmap string string :=
  list_to_map searchParams.

(** What the handler builds from the query of the client. *)
Definition of_filters (locale : string) (filters : Client.FilterState)
  : MedusaQuery :=
  medusaQuery (req_query (Client.buildQuery locale filters)).

End Handler.

(** ** What the component renders from its state *)

Module View.
Import JsString JsNumber Client.

(** The badge on the Filters button:
<<
  {(filters.status.length > 0 || filters.type.length > 0 ||
    filters.minPrice > 0 || filters.maxPrice < 1000) && (
    <span>
      {filters.status.length + filters.type.length +
       (filters.minPrice > 0 ? 1 : 0) + (filters.maxPrice < 1000 ? 1 : 0)}
    </span>
  )}
>> *)
Definition badge_shown (filters : FilterState) : bool :=
  (0 <? length (status filters))%nat
  || (0 <? length (type filters))%nat
  || gt (minPrice filters) (of_Z 0)
  || lt (maxPrice filters) (of_Z 1000).

Definition badge_count (filters : FilterState) : nat :=
  (length (status filters) + length (type filters)
   + (if gt (minPrice filters) (of_Z 0) then 1 else 0)
   + (if lt (maxPrice filters) (of_Z 1000) then 1 else 0))%nat.

(** The pagination buttons.  [page] is the number [filters.page], and
    [totalPages] the number in the state of that name.  A disabled
    button does not fire.
<<
  <button onClick={() => changePage(filters.page - 1)}
          disabled={filters.page <= 1}>
  <button onClick={() => changePage(filters.page + 1)}
          disabled={filters.page >= totalPages}>
>> *)
Definition previous_disabled (page : num) : bool := le page (of_Z 1).

Definition next_disabled (page totalPages : num) : bool :=
  ge page totalPages.

Definition click_previous (page : num) (filters : gmap string value)
  : gmap string value :=
  if previous_disabled page then filters
  else changePage (VNum (sub page (of_Z 1))) filters.

Definition click_next (page totalPages : num) (filters : gmap string value)
  : gmap string value :=
  if next_disabled page totalPages then filters
  else changePage (VNum (add page (of_Z 1))) filters.

End View.

(** ** The generic query builder of the walkthrough *)

Module Generic.
Import JsString JsNumber Client.

(** Truthiness: of a string, that it is not empty; of a number, that it
    is neither zero nor [NaN]; every array is truthy. *)
Definition number_truthy (n : num) : bool :=
  match n with
  | NaN => false
  | Fin q => negb (Qeq_bool q 0)
  | _ => true
  end.

Definition value_truthy (v : value) : bool :=
  match v with
  | VStr s => truthy s
  | VNum n => number_truthy n
  | VArr _ => true
  end.

(** [v !== ''] and [v !== 0] *)
Definition is_not_empty_string (v : value) : bool :=
  match v with
  | VStr EmptyString => false
  | _ => true
  end.

Definition is_not_zero (v : value) : bool :=
  match v with
  | VNum (Fin q) => negb (Qeq_bool q 0)
  | _ => true
  end.

(** [v.toString()]: an array prints as its elements joined by commas. *)
Definition value_toString (v : value) : string :=
  match v with
  | VStr s => s
  | VNum n => toString n
  | VArr l => join "," l
  end.

(** One turn of the loop:
<<
  if (value && value !== '' && value !== 0) {
    if (Array.isArray(value) && value.length > 0) {
      params.append(key, value.join(','));
    } else {
      params.append(key, value.toString());
    }
  }
>> *)
Definition visit (params : list (string * string)) (entry : string * value)
  : list (string * string) :=
  let (key, v) := entry in
  if value_truthy v && is_not_empty_string v && is_not_zero v then
    match v with
    | VArr l =>
        if (0 <? length l)%nat then append params key (join "," l)
        else append params key (value_toString v)
    | _ => append params key (value_toString v)
    end
  else params.

(** [Object.entries(filters).forEach(...)], then [params.toString()] *)
Definition buildQuery (filters : list (string * value))
  : list (string * string) :=
  foldl visit [] filters.

(** [Object.entries] of the [filters] state: its keys in the order of the
    object literal. *)
Definition entries (f : FilterState) : list (string * value) :=
  [("search", VStr (search f)); ("sortBy", VStr (sortBy f));
   ("sortDirection", VStr (sortDirection f)); ("status", VArr (status f));
   ("type", VArr (type f)); ("minPrice", VNum (minPrice f));
   ("maxPrice", VNum (maxPrice f)); ("page", VNum (page f))].

End Generic.

(** ** Vocabulary of the further properties *)

Module Paging.
Import JsNumber Route.

(** The query [q] asked for page [P]. *)
Definition at_page (q : params) (P : Z) : params := {|
  search := search q;
  sort_by := sort_by q;
  order := order q;
  status := status q;
  type := type q;
  minPrice := minPrice q;
  maxPrice := maxPrice q;
  page := of_Z P;
  limit := limit q
|}.

(** The pages 1 to [T] of a sequence. *)
Definition pages (q : params) (arr : list property) (T : nat)
  : list (list property) :=
  map (fun i => paginated (at_page q (Z.of_nat (S i))) arr) (seq 0 T).

(** The query [q] with another sort direction. *)
Definition with_order (q : params) (o : string) : params := {|
  search := search q;
  sort_by := sort_by q;
  order := o;
  status := status q;
  type := type q;
  minPrice := minPrice q;
  maxPrice := maxPrice q;
  page := page q;
  limit := limit q
|}.

(** An integer in the range where every integer is a number of its own
    and sums, differences and products are exact: at most
    [Number.MAX_SAFE_INTEGER] in absolute value. *)
Definition safe_integer (z : Z) : Prop := (Z.abs z ≤ 2 ^ 53 - 1)%Z.

(** The text that [parseInt] reads for the limit has no minus sign in
    front. *)
Definition unsigned_limit (searchParams : list (string * string)) : Prop :=
  fst (strip_sign
         (JsString.trimStart (or_else (get searchParams "limit") "10")))
  = false.

(** A record with a price that is not below zero. *)
Definition priced_from_zero (p : property) : Prop :=
  ∃ price, p_price p = Some price ∧ Spec.num_le (of_Z 0) price.

(** A query without search text, status, type and price bounds. *)
Definition unfiltered (searchParams : list (string * string)) : Prop :=
  Forall (fun k => get searchParams k = None)
    ["search"; "status"; "type"; "min_price"; "max_price"].

(** The records in the order of their keys, in the direction of [q]. *)
Definition key_order (Date_getTime : string -> num) (q : params)
  (a b : property) : Prop :=
  if String.eqb (order q) "asc"
  then Spec.num_le (Spec.sort_key Date_getTime q a)
         (Spec.sort_key Date_getTime q b)
  else Spec.num_le (Spec.sort_key Date_getTime q b)
         (Spec.sort_key Date_getTime q a).

End Paging.

(** * Properties *)

(** ** The state helpers *)

Section helpers.
Import JsString JsNumber Client.

Implicit Types (prev next : gmap string value) (key v : string).

Lemma eqb_elem_of v (l : list string) :
  existsb (String.eqb v) l = true ↔ v ∈ l.
Proof.
  rewrite existsb_exists. split.
  - intros (x & Hx & Heq). apply String.eqb_eq in Heq. subst x.
    by apply list_elem_of_In.
  - intros Hv. exists v. split; [by apply list_elem_of_In|].
    apply String.eqb_refl.
Qed.

Lemma eqb_not_elem_of v (l : list string) :
  existsb (String.eqb v) l = false ↔ v ∉ l.
Proof.
  rewrite <- eqb_elem_of. destruct (existsb _ l); intuition congruence.
Qed.

Lemma elem_of_remove v x (l : list string) :
  x ∈ List.filter (fun item => negb (String.eqb item v)) l ↔ x ∈ l ∧ x ≠ v.
Proof.
  rewrite !list_elem_of_In, filter_In, negb_true_iff, String.eqb_neq.
  done.
Qed.

Lemma remove_idem v (l : list string) :
  let others := List.filter (fun item => negb (String.eqb item v)) in
  others (others l) = others l.
Proof.
  induction l as [|x l IH]; simpl in *; [done|].
  destruct (String.eqb x v) eqn:E; simpl; [done|]. by rewrite E, IH.
Qed.

Lemma remove_snoc v (l : list string) :
  let others := List.filter (fun item => negb (String.eqb item v)) in
  others (l ++ [v])%list = others l.
Proof.
  simpl. rewrite List.filter_app. simpl. rewrite String.eqb_refl. simpl.
  by rewrite app_nil_r.
Qed.

(** The array a toggle leaves under [key], from the array [l] before. *)
Lemma updateArrayFilter_array key v prev l :
  prev !! key = Some (VArr l) →
  updateArrayFilter key v prev =
    Ok (<["page" := VNum (of_Z 1)]>
          (<[key := VArr (if existsb (String.eqb v) l
                          then List.filter
                                 (fun item => negb (String.eqb item v)) l
                          else (l ++ [v])%list)]> prev)).
Proof.
  intros Hl. unfold updateArrayFilter. rewrite Hl.
  by destruct (existsb _ l).
Qed.

End helpers.

Section helper_claims.
Import JsString JsNumber Client.

Implicit Types (prev next : gmap string value) (key : string).

(** C9, as the code has it.  Every call of [updateFilter], and every
    call of [updateArrayFilter] that produces a state, leaves [page] at
    1 whatever the page was before; [updateArrayFilter] produces a state
    whenever the value under the key is an array, and throws only when
    it is not.  [toggleSort] and [changePage] do not reset the page:
    the first keeps the page it finds, the second stores the page it is
    given. *)
Theorem update_resets_page key (value_ : value) (item : string) prev :
  updateFilter key value_ prev !! "page" = Some (VNum (of_Z 1))
  ∧ match updateArrayFilter key item prev with
    | Ok next => next !! "page" = Some (VNum (of_Z 1))
    | Throw _ => ∀ l, prev !! key ≠ Some (VArr l)
    end
  ∧ toggleSort prev !! "page" = prev !! "page"
  ∧ changePage value_ prev !! "page" = Some value_
  ∧ ¬ (∀ prev', toggleSort prev' !! "page" = Some (VNum (of_Z 1)))
  ∧ ¬ (∀ newPage prev',
         changePage newPage prev' !! "page" = Some (VNum (of_Z 1))).
Proof.
  repeat split.
  - unfold updateFilter. apply lookup_insert_eq.
  - unfold updateArrayFilter.
    destruct (prev !! key) as [[s|n|l]|] eqn:Hk; simpl.
    + destruct (includes s item); simpl; [congruence|].
      apply lookup_insert_eq.
    + congruence.
    + destruct (existsb _ l); simpl; apply lookup_insert_eq.
    + congruence.
  - unfold toggleSort. by rewrite lookup_insert_ne.
  - unfold changePage. apply lookup_insert_eq.
  - intros H. specialize (H (to_object Fixture.page3)).
    unfold toggleSort in H. rewrite lookup_insert_ne in H by done.
    vm_compute in H. congruence.
  - intros H. specialize (H (VNum (of_Z 2)) ∅).
    unfold changePage in H. rewrite lookup_insert_eq in H.
    vm_compute in H. congruence.
Qed.

(** Not every key gives a state.  The value under [minPrice] is a
    number, which has no [includes]; the value under [sortBy] is a text,
    which has no [filter], the method called once the text contains the
    value.  Either call throws, and no state with page 1 comes out. *)
Lemma updateArrayFilter_throws_off_arrays :
  updateArrayFilter "minPrice" "active" (to_object initial) = Throw TypeError
  ∧ updateArrayFilter "sortBy" "updated" (to_object initial)
    = Throw TypeError.
Proof. split; vm_compute; reflexivity. Qed.

(** C10. For a key among [status] and [type] that holds an array, one
    [updateArrayFilter] toggles the membership of the value: it is in
    the new array exactly when it was not in the old one, and the other
    elements are the same, in the same order. *)
Theorem updateArrayFilter_toggles key (v : string) prev (l : list string) :
  key ∈ ["status"; "type"] →
  prev !! key = Some (VArr l) →
  ∃ next l',
    updateArrayFilter key v prev = Ok next
    ∧ next !! key = Some (VArr l')
    ∧ (v ∈ l' ↔ v ∉ l)
    ∧ (∀ x, x ≠ v → (x ∈ l' ↔ x ∈ l))
    ∧ List.filter (fun item => negb (String.eqb item v)) l'
      = List.filter (fun item => negb (String.eqb item v)) l.
Proof.
  intros Hkey Hl.
  assert (Hne : "page" ≠ key).
  { intros <-. rewrite !elem_of_cons, elem_of_nil in Hkey.
    destruct Hkey as [? | [? | []]]; discriminate. }
  eexists _, _. split; [by apply updateArrayFilter_array|].
  split; [by rewrite lookup_insert_ne, lookup_insert_eq|].
  destruct (existsb (String.eqb v) l) eqn:E.
  - apply eqb_elem_of in E. split; [|split].
    + rewrite elem_of_remove. intuition congruence.
    + intros x Hx. rewrite elem_of_remove. intuition congruence.
    + apply remove_idem.
  - apply eqb_not_elem_of in E. split; [|split].
    + rewrite elem_of_app, list_elem_of_singleton. intuition congruence.
    + intros x Hx. rewrite elem_of_app, list_elem_of_singleton.
      intuition congruence.
    + apply remove_snoc.
Qed.

Lemma updateArrayFilter_toggles_witness :
  ∃ next l',
    updateArrayFilter "status" "active" (to_object initial) = Ok next
    ∧ next !! "status" = Some (VArr l')
    ∧ ("active" ∈ l' ↔ "active" ∉ @nil string)
    ∧ (∀ x, x ≠ "active" → (x ∈ l' ↔ x ∈ @nil string))
    ∧ List.filter (fun item => negb (String.eqb item "active")) l'
      = List.filter (fun item => negb (String.eqb item "active")) [].
Proof.
  apply (updateArrayFilter_toggles "status" "active" (to_object initial) []).
  - apply list_elem_of_here.
  - reflexivity.
Defined.

End helper_claims.

(** ** The sorter *)

Section sorter.
Import JsString JsNumber Route Spec.

Context {A : Type}.
Implicit Types (cmp : A → A → num) (l : list A) (x y a b : A).

Lemma precedes_nil a b : ¬ precedes a b (@nil A).
Proof. intros (l1 & l2 & l3 & H). by destruct l1. Qed.

Lemma precedes_cons a b x l :
  precedes a b (x :: l) ↔ (x = a ∧ b ∈ l) ∨ precedes a b l.
Proof.
  split.
  - intros (l1 & l2 & l3 & H). destruct l1 as [|x' l1]; simpl in H.
    + injection H as -> ->. left. split; [done|].
      apply elem_of_app. right. apply elem_of_cons. by left.
    + injection H as -> ->. right. by exists l1, l2, l3.
  - intros [[-> Hb] | (l1 & l2 & l3 & ->)].
    + apply list_elem_of_split in Hb as (l2 & l3 & ->).
      by exists [], l2, l3.
    + by exists (x :: l1), l2, l3.
Qed.

Lemma insert_perm cmp x l : insert cmp x l ≡ₚ x :: l.
Proof.
  induction l as [|y l IH]; simpl; [done|].
  destruct (in_order (cmp x y)); [done|].
  rewrite IH. apply Permutation_swap.
Qed.

Lemma array_sort_perm cmp l : array_sort cmp l ≡ₚ l.
Proof.
  induction l as [|x l IH]; simpl; [done|].
  by rewrite insert_perm, IH.
Qed.

Lemma insert_keeps_precedes cmp x a b l :
  precedes a b l → precedes a b (insert cmp x l).
Proof.
  induction l as [|y l IH]; simpl; intros H.
  - by apply precedes_nil in H.
  - destruct (in_order (cmp x y)).
    + apply precedes_cons. by right.
    + apply precedes_cons in H as [[-> Hb] | H]; apply precedes_cons.
      * left. split; [done|]. rewrite insert_perm. by right.
      * right. by apply IH.
Qed.

Lemma insert_in_front cmp x y l :
  y ∈ l → in_order (cmp x y) = true → precedes x y (insert cmp x l).
Proof.
  induction l as [|z l IH]; simpl; intros Hy Hord.
  - by apply not_elem_of_nil in Hy.
  - destruct (in_order (cmp x z)) eqn:Hz.
    + apply precedes_cons. by left.
    + apply precedes_cons. right. apply IH; [|done].
      apply elem_of_cons in Hy as [-> | Hy]; [congruence | done].
Qed.

(** The sort never moves a later element in front of an earlier one
    that the comparison does not put behind it. *)
Lemma array_sort_stable cmp a b l :
  precedes a b l → in_order (cmp a b) = true →
  precedes a b (array_sort cmp l).
Proof.
  intros H Hord. induction l as [|x l IH]; simpl.
  - by apply precedes_nil in H.
  - apply precedes_cons in H as [[-> Hb] | H].
    + apply insert_in_front; [|done]. by rewrite array_sort_perm.
    + by apply insert_keeps_precedes, IH.
Qed.

(** When of any two elements one may stand in front of the other, no
    element of the output stands in front of one it belongs behind. *)
Lemma insert_sorted cmp x l :
  (∀ a b, in_order (cmp a b) = true ∨ in_order (cmp b a) = true) →
  Sorted (λ a b, in_order (cmp a b) = true) l →
  Sorted (λ a b, in_order (cmp a b) = true) (insert cmp x l).
Proof.
  intros Htotal. induction 1 as [|y l Hl IH Hhd]; simpl.
  - by repeat constructor.
  - destruct (in_order (cmp x y)) eqn:Hxy.
    + by repeat constructor.
    + assert (in_order (cmp y x) = true) as Hyx
        by (destruct (Htotal x y); congruence).
      constructor; [done|].
      destruct Hhd as [|z l Hyz]; simpl; [by constructor|].
      destruct (in_order (cmp x z)); by constructor.
Qed.

Lemma array_sort_sorted cmp l :
  (∀ a b, in_order (cmp a b) = true ∨ in_order (cmp b a) = true) →
  Sorted (λ a b, in_order (cmp a b) = true) (array_sort cmp l).
Proof.
  intros Htotal. induction l as [|x l IH]; simpl; [constructor|].
  by apply insert_sorted.
Qed.

(** Under a comparison that never answers "behind", nothing moves. *)
Lemma array_sort_all_in_order cmp l :
  (∀ x y, in_order (cmp x y) = true) → array_sort cmp l = l.
Proof.
  intros Hord. induction l as [|x l IH]; simpl; [done|].
  rewrite IH. destruct l as [|y l]; simpl; [done|]. by rewrite Hord.
Qed.

End sorter.

Section sorter_claims.
Import JsString JsNumber Route Spec.

Variable Date_getTime : string → num.

Lemma Qle_bool_Qred_sub (x y : Q) :
  Qle_bool x y = true → Qle_bool (Qred (x - y)) 0 = true.
Proof.
  rewrite !Qle_bool_iff, Qred_correct. intros H.
  apply (Qplus_le_l _ _ y). ring_simplify. done.
Qed.

(** Keys that compare equal make the difference, either way round, a
    number that is not above zero. *)
Lemma tie_in_order (x y : num) :
  tie x y → in_order (sub x y) = true ∧ in_order (sub y x) = true.
Proof.
  unfold tie, in_order, gt.
  destruct x as [| | |x], y as [| | |y]; simpl; intros [Hyx Hxy]; try done.
  apply negb_false_iff in Hyx, Hxy.
  change (inject_Z 0) with 0%Q. by rewrite !Qle_bool_Qred_sub.
Qed.

Lemma sub_in_order_total (x y : num) :
  in_order (sub x y) = true ∨ in_order (sub y x) = true.
Proof.
  unfold in_order, gt.
  destruct x as [| | |x], y as [| | |y]; simpl; try (by left); try (by right).
  rewrite !negb_involutive. change (inject_Z 0) with 0%Q.
  destruct (Qlt_le_dec y x) as [H | H].
  - right. apply Qle_bool_Qred_sub, Qle_bool_iff. by apply Qlt_le_weak.
  - left. by apply Qle_bool_Qred_sub, Qle_bool_iff.
Qed.

Lemma comparefn_sort_key (q : params) (a b : property) :
  recognized (sort_by q) →
  comparefn Date_getTime q a b
  = if String.eqb (order q) "asc"
    then sub (sort_key Date_getTime q a) (sort_key Date_getTime q b)
    else sub (sort_key Date_getTime q b) (sort_key Date_getTime q a).
Proof.
  unfold comparefn, sort_key. by intros [-> | [-> | ->]].
Qed.

Lemma lt_Fin_true (x y : Q) : lt (Fin x) (Fin y) = true ↔ (x < y)%Q.
Proof.
  simpl. rewrite negb_true_iff, <- not_true_iff_false, Qle_bool_iff.
  split; [apply Qnot_le_lt | apply Qlt_not_le].
Qed.

Lemma lt_Fin_false (x y : Q) : lt (Fin x) (Fin y) = false ↔ (y <= x)%Q.
Proof. simpl. by rewrite negb_false_iff, Qle_bool_iff. Qed.

(** The difference of two numbers is below zero when the first is below
    the second, above zero when the second is below the first. *)
Lemma lt_sub_zero (x y : num) :
  x ≠ NaN → y ≠ NaN → lt (sub x y) (of_Z 0) = lt x y.
Proof.
  destruct x as [| | |x], y as [| | |y]; try done. intros _ _.
  change (lt (Fin (Qred (x - y))) (Fin 0) = lt (Fin x) (Fin y)).
  apply eq_true_iff_eq. rewrite !lt_Fin_true, Qred_correct. split; intros H.
  - apply (Qplus_lt_l _ _ (- y)). by ring_simplify (y + - y)%Q.
  - apply (Qplus_lt_l _ _ y). by ring_simplify.
Qed.

Lemma gt_sub_zero (x y : num) :
  x ≠ NaN → y ≠ NaN → gt (sub x y) (of_Z 0) = lt y x.
Proof.
  destruct x as [| | |x], y as [| | |y]; try done. intros _ _.
  change (lt (Fin 0) (Fin (Qred (x - y))) = lt (Fin y) (Fin x)).
  apply eq_true_iff_eq. rewrite !lt_Fin_true, Qred_correct. split; intros H.
  - apply (Qplus_lt_l _ _ (- y)). by ring_simplify (y + - y)%Q.
  - apply (Qplus_lt_l _ _ y). by ring_simplify.
Qed.

Lemma num_lt_irrefl (x : num) : lt x x = false.
Proof.
  destruct x as [| | |x]; try done. apply lt_Fin_false, Qle_refl.
Qed.

Lemma num_lt_trans (x y z : num) :
  lt x y = true → lt y z = true → lt x z = true.
Proof.
  destruct x as [| | |x], y as [| | |y], z as [| | |z]; try done.
  rewrite !lt_Fin_true. apply Qlt_trans.
Qed.

(** Among numbers, comparing equal is transitive. *)
Lemma tie_trans (x y z : num) : y ≠ NaN → tie x y → tie y z → tie x z.
Proof.
  unfold tie.
  destruct x as [| | |x], y as [| | |y], z as [| | |z];
    try done; try (simpl; intuition congruence).
  intros _. rewrite !lt_Fin_false. intros [? ?] [? ?].
  split; eapply Qle_trans; eauto.
Qed.

(** On records whose sort keys are all numbers, the callback of the sort
    is a consistent comparison function. *)
Lemma comparefn_consistent (q : params) (arr : list property) :
  recognized (sort_by q) →
  Forall (λ p, sort_key Date_getTime q p ≠ NaN) arr →
  consistent (comparefn Date_getTime q) arr.
Proof.
  intros Hrec Hkeys a b c Ha Hb Hc. rewrite Forall_forall in Hkeys.
  pose proof (Hkeys a Ha). pose proof (Hkeys b Hb). pose proof (Hkeys c Hc).
  unfold eq_CF, lt_CF, gt_CF. rewrite !comparefn_sort_key by done.
  destruct (String.eqb (order q) "asc");
    rewrite !lt_sub_zero, !gt_sub_zero by done;
    (split; [split; apply num_lt_irrefl|]);
    (split; [tauto|]);
    (split; [|split; intros; eapply num_lt_trans; eauto]).
  - intros ? ?. by apply (tie_trans _ (sort_key Date_getTime q b)).
  - intros [? ?] [? ?].
    apply and_comm, (tie_trans _ (sort_key Date_getTime q b)); done.
Qed.

(** The engine may answer with the stable sort. *)
Lemma array_sort_may_sort {A} (cmp : A → A → num) (l : list A) :
  may_sort cmp l (array_sort cmp l).
Proof. split; [apply array_sort_perm | done]. Qed.

(** C7, as the code has it.  On records whose sort keys are all numbers
    the sorter is stable, for every recognized sort field and either
    direction: the engine has one answer, and in it, of two records
    whose sort keys compare equal, the one that came first in the input
    comes first. *)
Theorem sorted_stable (q : params) (arr out : list property)
  (a b : property) :
  recognized (sort_by q) →
  Forall (λ p, sort_key Date_getTime q p ≠ NaN) arr →
  may_sort (comparefn Date_getTime q) arr out →
  precedes a b arr →
  tie (sort_key Date_getTime q a) (sort_key Date_getTime q b) →
  out = sorted Date_getTime q arr ∧ precedes a b out.
Proof.
  intros Hrec Hkeys [_ Hout] Hab Htie.
  rewrite (Hout (comparefn_consistent q arr Hrec Hkeys)). split; [done|].
  apply array_sort_stable; [done|].
  rewrite comparefn_sort_key by done.
  apply tie_in_order in Htie as [? ?]. by destruct (String.eqb (order q) "asc").
Qed.

(** The sorter permutes its input, and under a recognized sort field it
    leaves no record in front of a neighbour that the comparison puts
    before it. *)
Lemma sorted_perm (q : params) (arr : list property) :
  sorted Date_getTime q arr ≡ₚ arr.
Proof. apply array_sort_perm. Qed.

Lemma sorted_in_order (q : params) (arr : list property) :
  recognized (sort_by q) →
  Sorted (λ a b, in_order (comparefn Date_getTime q a b) = true)
    (sorted Date_getTime q arr).
Proof.
  intros Hrec. apply array_sort_sorted. intros a b.
  rewrite !comparefn_sort_key by done.
  destruct (String.eqb (order q) "asc"); [|apply or_comm];
    apply sub_in_order_total.
Qed.

(** C6. Under a sort field that is none of [price], [rating] and
    [last_updated] the sorter returns the sequence as it received it. *)
Theorem sorted_unknown_field (q : params) (arr : list property) :
  ¬ recognized (sort_by q) → sorted Date_getTime q arr = arr.
Proof.
  intros Hrec. apply array_sort_all_in_order. intros a b.
  unfold comparefn.
  destruct (String.eqb_spec (sort_by q) "price") as [E|_];
    [destruct Hrec; left; done|].
  destruct (String.eqb_spec (sort_by q) "rating") as [E|_];
    [destruct Hrec; right; left; done|].
  destruct (String.eqb_spec (sort_by q) "last_updated") as [E|_];
    [destruct Hrec; right; right; done|].
  reflexivity.
Qed.

End sorter_claims.

(** ** The filterer *)

Section strings.
Import JsString Spec.

Lemma append_cons (c : ascii) (s t : string) :
  String c s ++ t = String c (s ++ t).
Proof. reflexivity. Qed.

Lemma append_nil (t : string) : "" ++ t = t.
Proof. reflexivity. Qed.

Lemma startsWith_spec (s p : string) :
  startsWith s p = true ↔ ∃ post, s = p ++ post.
Proof.
  revert s. induction p as [|b p IH]; intros s; simpl.
  - split; [by exists s | by destruct s].
  - setoid_rewrite append_cons. destruct s as [|a s]; simpl.
    + split; [done | by intros [? ?]].
    + destruct (Ascii.eqb_spec a b) as [->|Hne].
      * rewrite IH. split; intros [post H]; exists post; congruence.
      * split; [done | intros [? ?]; congruence].
Qed.

Lemma includes_eq (s sub : string) :
  includes s sub
  = startsWith s sub
    || match s with String _ s' => includes s' sub | "" => false end.
Proof. by destruct s. Qed.

Lemma includes_spec (s sub : string) :
  includes s sub = true ↔ substring sub s.
Proof.
  unfold substring. split.
  - induction s as [|c s IH]; rewrite includes_eq, orb_true_iff.
    + intros [H | H]; [|done].
      apply startsWith_spec in H as [post H]. by exists "", post.
    + intros [H | H].
      * apply startsWith_spec in H as [post H]. by exists "", post.
      * destruct (IH H) as (pre & post & ->). by exists (String c pre), post.
  - intros (pre & post & ->). induction pre as [|c pre IH].
    + rewrite append_nil, includes_eq, orb_true_iff. left.
      apply startsWith_spec. by exists post.
    + rewrite append_cons, includes_eq, IH. apply orb_true_r.
Qed.

Lemma lower_char_idem (c : ascii) : lower_char (lower_char c) = lower_char c.
Proof. by destruct c as [[] [] [] [] [] [] [] []]. Qed.

Lemma toLowerCase_idem (s : string) :
  toLowerCase (toLowerCase s) = toLowerCase s.
Proof.
  induction s as [|c s IH]; simpl; [done|].
  by rewrite lower_char_idem, IH.
Qed.

Lemma truthy_spec (s : string) : truthy s = false ↔ s = "".
Proof. by destruct s. Qed.

Lemma truthy_true (s : string) : truthy s = true ↔ s ≠ "".
Proof. by destruct s. Qed.

End strings.

Section filterer.
Import JsString JsNumber Route Spec.

Lemma le_spec (a b : num) : le a b = true ↔ num_le a b.
Proof.
  destruct a as [| | |x], b as [| | |y]; simpl; try done.
  apply Qle_bool_iff.
Qed.

Lemma array_includes_spec (arr : list string) (x : option string) :
  array_includes arr x = true ↔ ∃ s, x = Some s ∧ s ∈ arr.
Proof.
  destruct x as [s|]; simpl.
  - rewrite existsb_exists. split.
    + intros (y & Hy & Heq). apply String.eqb_eq in Heq as <-.
      exists s. by rewrite list_elem_of_In.
    + intros (y & [= <-] & Hy). exists s.
      by rewrite <- list_elem_of_In, String.eqb_refl.
  - split; [done | by intros (? & ? & _)].
Qed.

Lemma length_eqb_0 {A} (l : list A) : Nat.eqb (length l) 0 = true ↔ l = [].
Proof. by destruct l. Qed.

Lemma text_includes_spec (x : option string) (s : string) :
  text_includes x s = true ↔ ∃ t, x = Some t ∧ substring s (toLowerCase t).
Proof.
  destruct x as [t|]; simpl.
  - rewrite includes_spec. split.
    + intros H. by exists t.
    + by intros (? & [= <-] & H).
  - split; [done | by intros (? & ? & _)].
Qed.

Lemma price_spec (q : params) (p : property) :
  ge (to_number (p_price p)) (minPrice q)
  && le (to_number (p_price p)) (maxPrice q) = true
  ↔ price_clause q p.
Proof.
  unfold price_clause, ge. rewrite andb_true_iff, !le_spec.
  destruct (p_price p) as [x|]; simpl.
  - split.
    + intros [? ?]. by exists x.
    + by intros (? & [= <-] & ? & ?).
  - split; [|by intros (? & ? & _)]. intros [H _]. by destruct (minPrice q).
Qed.

(** [satisfiesb] decides [satisfies] once the search text is in lower
    case, as [parse] makes it. *)
Lemma satisfiesb_spec (q : params) (p : property) :
  toLowerCase (search q) = search q →
  satisfiesb q p = true ↔ satisfies q p.
Proof.
  intros Hlow. unfold satisfiesb, satisfies.
  rewrite <- !andb_assoc, andb_true_iff, andb_true_iff, andb_true_iff.
  rewrite price_spec.
  unfold search_clause, status_clause, type_clause. rewrite Hlow.
  rewrite !orb_true_iff, negb_true_iff, truthy_spec, !text_includes_spec.
  rewrite !length_eqb_0, !array_includes_spec.
  tauto.
Qed.

(** On a record with a name and a location the callback does not throw,
    and answers with the four clauses. *)
Lemma keep_has_text (q : params) (p : property) :
  has_text p → keep q p = Ok (satisfiesb q p).
Proof.
  intros [[name Hn] [location Hl]]. unfold keep, satisfiesb.
  rewrite Hn, Hl. simpl.
  destruct (truthy (search q)); simpl; [|done].
  by destruct (includes (toLowerCase name) (search q)).
Qed.

Lemma array_filter_total {A} (f : A → result bool) (g : A → bool)
  (P : A → Prop) (arr : list A) :
  (∀ x, P x → f x = Ok (g x)) → Forall P arr →
  array_filter f arr = Ok (List.filter g arr).
Proof.
  intros Hf. induction 1 as [|x arr Hx _ IH]; simpl; [done|].
  rewrite (Hf x Hx), IH. simpl. by destruct (g x).
Qed.

Lemma parse_search_lower (searchParams : list (string * string)) :
  toLowerCase (search (parse searchParams)) = search (parse searchParams).
Proof.
  simpl. destruct (get searchParams "search") as [s|]; simpl; [|done].
  destruct (truthy (toLowerCase s)); [|done]. apply toLowerCase_idem.
Qed.

(** Without a search text the callback reads neither the name nor the
    location, and answers with the four clauses. *)
Lemma keep_no_search (q : params) (p : property) :
  search q = "" → keep q p = Ok (satisfiesb q p).
Proof. intros Hs. unfold keep, satisfiesb. by rewrite Hs. Qed.

(** When the search text is empty, or every record has its name and its
    location, the filterer keeps exactly the records that satisfy the
    search, status, type and price clauses together, in their original
    order: its result is the input filtered by a function [f] that
    decides the conjunction of the four clauses. *)
Theorem filtered_keeps_satisfying (searchParams : list (string * string))
  (properties : list property) :
  search (parse searchParams) = "" ∨ Forall has_text properties →
  ∃ f : property → bool,
    (∀ p, f p = true ↔ satisfies (parse searchParams) p)
    ∧ filtered (parse searchParams) properties
      = Ok (List.filter f properties).
Proof.
  intros Hwf. exists (satisfiesb (parse searchParams)). split.
  - intros p. apply satisfiesb_spec, parse_search_lower.
  - unfold filtered.
    apply (array_filter_total _ _
             (λ p, search (parse searchParams) = "" ∨ has_text p)).
    + intros p [Hs | Hp]; [by apply keep_no_search | by apply keep_has_text].
    + destruct Hwf as [Hs | Hwf].
      * apply Forall_forall. intros p _. by left.
      * eapply Forall_impl; [exact Hwf|]. intros p Hp. by right.
Qed.

(** C5.  The filterer does not keep exactly the records that satisfy the
    four clauses: the search clause reads [name] and [location] without
    a guard.  Of [villa] and [no_location] under the search text
    [villa], the first satisfies the clauses and the second does not,
    so that [villa] alone is to be kept; the filterer throws and keeps
    nothing. *)
Theorem filtered_throws_instead_of_keeping :
  let q := parse [("search", "villa")] in
  satisfies q Fixture.villa
  ∧ ¬ satisfies q Fixture.no_location
  ∧ filtered q [Fixture.villa; Fixture.no_location] = Throw TypeError.
Proof.
  intros q. split; [|split].
  - apply satisfiesb_spec; [apply parse_search_lower | reflexivity].
  - intros H. apply satisfiesb_spec in H; [|apply parse_search_lower].
    discriminate H.
  - reflexivity.
Qed.

(** A record that lacks its status, type or price is kept by no query
    that inspects that field, and the callback does not throw. *)
Lemma keep_absent_field (q : params) (p : property) :
  has_text p →
  (p_status p = None ∧ status q ≠ [])
  ∨ (p_type p = None ∧ type q ≠ [])
  ∨ p_price p = None →
  keep q p = Ok false.
Proof.
  intros Hwf H. rewrite keep_has_text by done. f_equal.
  unfold satisfiesb.
  destruct H as [[-> Hs] | [[-> Ht] | ->]]; simpl.
  - destruct (status q); [done|]. simpl. by rewrite andb_false_r.
  - destruct (type q); [done|]. simpl. by rewrite !andb_false_r.
  - unfold ge. destruct (minPrice q); simpl; by rewrite ?andb_false_r.
Qed.

(** What the callback does on a record without a name or without a
    location, under a search text that is not empty. *)
Lemma keep_missing_text (q : params) (p : property) :
  search q ≠ "" →
  (p_name p = None → keep q p = Throw TypeError)
  ∧ (∀ name, p_name p = Some name → p_location p = None →
       includes (toLowerCase name) (search q) = false →
       keep q p = Throw TypeError).
Proof.
  intros Hs. apply truthy_true in Hs. unfold keep. rewrite Hs. split.
  - by intros ->.
  - intros name Hn Hl Hi. rewrite Hn, Hl. unfold toLowerCase_of.
    cbn [negb mbind result_bind]. by rewrite Hi.
Qed.

(** C4. A record without a name, or without a location and with a name
    that does not match, makes the filterer throw as soon as the search
    text is not empty: the callback calls [toLowerCase] on the missing
    field.  No response is produced. *)
Theorem GET_throws_on_missing_text :
  GET Fixture.no_date [Fixture.villa; Fixture.unnamed] [("search", "villa")]
  = Throw TypeError
  ∧ GET Fixture.no_date [Fixture.villa; Fixture.no_location]
      [("search", "villa")]
    = Throw TypeError.
Proof. split; reflexivity. Qed.

End filterer.

(** ** The paginator *)

Section numbers.
Import JsNumber.
Local Open Scope Z_scope.

Lemma Qred_inject_Z (z : Z) : Qred (inject_Z z) = inject_Z z.
Proof. apply Qred_identity. simpl. apply Z.gcd_1_r. Qed.

Lemma fin_inject_Z (q : Q) (z : Z) : (q == inject_Z z)%Q → fin q = of_Z z.
Proof.
  intros H. unfold fin, of_Z. f_equal.
  rewrite <- (Qred_inject_Z z). by apply Qred_complete.
Qed.

Lemma sub_of_Z (a b : Z) : sub (of_Z a) (of_Z b) = of_Z (a - b).
Proof.
  simpl. apply fin_inject_Z.
  unfold Z.sub. by rewrite inject_Z_plus, inject_Z_opp.
Qed.

Lemma add_of_Z (a b : Z) : add (of_Z a) (of_Z b) = of_Z (a + b).
Proof. simpl. apply fin_inject_Z. by rewrite inject_Z_plus. Qed.

Lemma mul_of_Z (a b : Z) : mul (of_Z a) (of_Z b) = of_Z (a * b).
Proof. simpl. apply fin_inject_Z. by rewrite inject_Z_mult. Qed.

Lemma trunc_inject_Z (z : Z) : trunc (inject_Z z) = z.
Proof. unfold trunc. simpl. apply Z.quot_1_r. Qed.

Lemma lt_of_Z (a b : Z) : lt (of_Z a) (of_Z b) = true ↔ a < b.
Proof.
  simpl. unfold Qle_bool. simpl.
  rewrite negb_true_iff, Z.leb_gt. lia.
Qed.

(** [Math.ceil(n / d)] for integers [n] and [d > 0]. *)
Lemma ceil_div_of_Z (n d : Z) :
  0 < d → ceil (div (of_Z n) (of_Z d)) = of_Z (- (- n / d)).
Proof.
  intros Hd. destruct d as [|d|d]; try lia. simpl.
  unfold of_Z. f_equal.
  rewrite (Qceiling_comp _ _ (Qred_correct _)).
  unfold Qceiling, Qfloor, Qdiv, Qinv, Qmult, Qopp. simpl.
  by rewrite Z.mul_1_r.
Qed.

Lemma relative_index_of_Z (len z : Z) :
  relative_index len (of_Z z)
  = if (z <? 0)%Z then Z.max (len + z) 0 else Z.min z len.
Proof. unfold relative_index, of_Z. by rewrite trunc_inject_Z. Qed.

Lemma relative_index_range (len : Z) (a : num) :
  0 ≤ len → 0 ≤ relative_index len a ≤ len.
Proof.
  intros Hlen. destruct a as [| | |q]; simpl; try lia.
  destruct (trunc q <? 0)%Z eqn:E; lia.
Qed.

End numbers.

Section paginator.
Import JsNumber Route.
Local Open Scope Z_scope.

(** A slice is empty exactly when its end does not lie behind its
    start. *)
Lemma slice_empty {A} (l : list A) (a b : num) :
  slice l a b = []
  ↔ relative_index (Z.of_nat (length l)) b
    ≤ relative_index (Z.of_nat (length l)) a.
Proof.
  unfold slice.
  pose proof (relative_index_range (Z.of_nat (length l)) a) as Ha.
  pose proof (relative_index_range (Z.of_nat (length l)) b) as Hb.
  set (k := relative_index _ a) in *. set (final := relative_index _ b) in *.
  rewrite <- length_zero_iff_nil, length_take, length_drop. lia.
Qed.

Lemma start_of_Z (q : params) (P L : Z) :
  page q = of_Z P → limit q = of_Z L → start q = of_Z ((P - 1) * L).
Proof.
  intros HP HL. unfold start. by rewrite HP, HL, sub_of_Z, mul_of_Z.
Qed.

Lemma paginated_empty (q : params) (arr : list property) (P L : Z) :
  page q = of_Z P → limit q = of_Z L →
  paginated q arr = []
  ↔ relative_index (Z.of_nat (length arr)) (of_Z (P * L))
    ≤ relative_index (Z.of_nat (length arr)) (of_Z ((P - 1) * L)).
Proof.
  intros HP HL. unfold paginated.
  rewrite (start_of_Z q P L), HL, add_of_Z, slice_empty by done.
  by replace ((P - 1) * L + L) with (P * L) by ring.
Qed.

Lemma totalPages_of_Z (q : params) (arr : list property) (L : Z) :
  limit q = of_Z L → 0 < L →
  totalPages q arr = of_Z (- (- Z.of_nat (length arr) / L)).
Proof.
  intros HL Hpos. unfold totalPages. rewrite HL. by apply ceil_div_of_Z.
Qed.

(** C2, as the code has it. For a positive integer page size, the
    paginator returns the empty slice for page 0 and for every page
    beyond [totalPages].  For a negative page it counts the slice from
    the end of the sequence, and the slice is empty exactly when the
    sequence has no more than [-page * limit] records.  The paginator
    is a total function: no page number makes it throw. *)
Theorem paginated_out_of_range (q : params) (arr : list property)
  (P L : Z) :
  page q = of_Z P → limit q = of_Z L → 0 < L →
  (P = 0 ∨ lt (totalPages q arr) (page q) = true → paginated q arr = [])
  ∧ (P < 0 → paginated q arr = [] ↔ Z.of_nat (length arr) ≤ - P * L).
Proof.
  intros HP HL Hpos.
  rewrite (paginated_empty q arr P L), !relative_index_of_Z by done.
  rewrite (totalPages_of_Z q arr L), HP, lt_of_Z by done.
  set (len := Z.of_nat (length arr)).
  assert (0 ≤ len) by lia.
  replace ((P - 1) * L) with (P * L - L) by ring.
  split.
  - intros [-> | Hbeyond].
    + rewrite Z.mul_0_l.
      destruct (0 <? 0)%Z eqn:E1, (0 - L <? 0)%Z eqn:E2; lia.
    + pose proof (Z.mul_div_le (- len) L Hpos) as Hdiv.
      set (d := - len / L) in *.
      assert ((- d) * L ≤ (P - 1) * L)
        by (apply Z.mul_le_mono_nonneg_r; lia).
      assert (len ≤ P * L - L) by lia.
      destruct (P * L <? 0)%Z eqn:E1, (P * L - L <? 0)%Z eqn:E2; lia.
  - intros Hneg. assert (P * L < 0) by nia.
    destruct (P * L <? 0)%Z eqn:E1, (P * L - L <? 0)%Z eqn:E2; lia.
Qed.

End paginator.

Section paginator_examples.
Import JsNumber Route.
Local Open Scope Z_scope.

Lemma paginated_out_of_range_witness :
  (5 = 0 ∨ lt (totalPages (parse [("page", "5")])
                 [Fixture.villa; Fixture.flat])
              (page (parse [("page", "5")])) = true →
   paginated (parse [("page", "5")]) [Fixture.villa; Fixture.flat] = [])
  ∧ (5 < 0 →
     paginated (parse [("page", "5")]) [Fixture.villa; Fixture.flat] = []
     ↔ Z.of_nat (length [Fixture.villa; Fixture.flat]) ≤ - 5 * 10).
Proof.
  apply (paginated_out_of_range
           (parse [("page", "5")]) [Fixture.villa; Fixture.flat] 5 10);
    reflexivity.
Defined.

(** Page -1 is below 1, and its slice of a two-record sequence is the
    first record. *)
Lemma paginated_negative_page_not_empty :
  page (parse Fixture.page_minus_one) = of_Z (-1)
  ∧ limit (parse Fixture.page_minus_one) = of_Z 1
  ∧ lt (page (parse Fixture.page_minus_one)) (of_Z 1) = true
  ∧ paginated (parse Fixture.page_minus_one) [Fixture.flat; Fixture.villa]
    = [Fixture.flat]
  ∧ paginated (parse Fixture.page_minus_one) [Fixture.flat; Fixture.villa]
    ≠ [].
Proof. repeat split; [reflexivity..|discriminate]. Qed.

(** Page 2 of 25 records, ten to a page, covers the indices 10 to 19,
    and there are three pages. *)
Example paginated_second_page :
  paginated (parse [("page", "2"); ("limit", "10")])
    (replicate 25 Fixture.villa)
  = replicate 10 Fixture.villa
  ∧ start (parse [("page", "2"); ("limit", "10")]) = of_Z 10
  ∧ totalPages (parse [("page", "2"); ("limit", "10")])
      (replicate 25 Fixture.villa) = of_Z 3.
Proof. repeat split. Qed.

End paginator_examples.

(** ** Parsing the query string *)

Section parsing.
Import JsString JsNumber Route.

(** C3, as the code has it. Each numeric parameter takes its fallback
    (0, unbounded, 1, 10) when it is absent or empty.  A value that is
    present and not empty is handed to [parseFloat] or [parseInt] as it
    is, whatever it holds; nothing is rejected. *)
Theorem parse_numeric (searchParams : list (string * string)) :
  minPrice (parse searchParams)
  = match get searchParams "min_price" with
    | None | Some "" => of_Z 0
    | Some v => parseFloat v
    end
  ∧ maxPrice (parse searchParams)
    = match get searchParams "max_price" with
      | None | Some "" => PInf
      | Some v => parseFloat v
      end
  ∧ page (parse searchParams)
    = match get searchParams "page" with
      | None | Some "" => of_Z 1
      | Some v => parseInt v
      end
  ∧ limit (parse searchParams)
    = match get searchParams "limit" with
      | None | Some "" => of_Z 10
      | Some v => parseInt v
      end.
Proof.
  simpl.
  destruct (get searchParams "min_price") as [[|]|],
           (get searchParams "max_price") as [[|]|],
           (get searchParams "page") as [[|]|],
           (get searchParams "limit") as [[|]|]; done.
Qed.

(** A value that starts with neither white space, a sign, nor a digit
    has no number for [parseInt] to read; nor for [parseFloat], unless it
    starts with a point or with the [I] of [Infinity]. *)
Lemma parse_not_a_number (c : ascii) (s : string) :
  is_space c = false → digit c = None → c ≠ "+"%char → c ≠ "-"%char →
  parseInt (String c s) = NaN
  ∧ (c ≠ "."%char → c ≠ "I"%char → parseFloat (String c s) = NaN).
Proof.
  destruct c as [[] [] [] [] [] [] [] []]; intros Hsp Hdig Hplus Hminus;
    try discriminate; try congruence;
    (split; [reflexivity | intros Hpt HI; try congruence; reflexivity]).
Qed.

(** Parameters that are present but not numbers come out as [NaN], not
    as the fallbacks, and [NaN] reaches the response. *)
Lemma parse_garbled_is_NaN :
  get Fixture.garbled "min_price" = Some "abc"
  ∧ minPrice (parse Fixture.garbled) = NaN
  ∧ minPrice (parse Fixture.garbled) ≠ of_Z 0
  ∧ maxPrice (parse Fixture.garbled) ≠ PInf
  ∧ page (parse Fixture.garbled) ≠ of_Z 1
  ∧ limit (parse Fixture.garbled) ≠ of_Z 10
  ∧ (resp_totalPages <$> GET Fixture.no_date [Fixture.villa] Fixture.garbled)
    = Ok NaN.
Proof. repeat split; (reflexivity || discriminate). Qed.

End parsing.

Section sorter_examples.
Import JsNumber Route Spec.

Lemma sorted_unknown_field_witness :
  sorted Fixture.no_date (parse [("sort_by", "name")])
    [Fixture.villa; Fixture.flat]
  = [Fixture.villa; Fixture.flat].
Proof.
  apply (sorted_unknown_field Fixture.no_date (parse [("sort_by", "name")])).
  intros [H | [H | H]]; discriminate H.
Defined.

Lemma sorted_stable_witness :
  [Fixture.flat; Fixture.villa; Fixture.cottage]
  = sorted Fixture.no_date (parse [("sort_by", "price"); ("order", "asc")])
      [Fixture.villa; Fixture.flat; Fixture.cottage]
  ∧ precedes Fixture.villa Fixture.cottage
      [Fixture.flat; Fixture.villa; Fixture.cottage].
Proof.
  apply (sorted_stable Fixture.no_date
           (parse [("sort_by", "price"); ("order", "asc")])
           [Fixture.villa; Fixture.flat; Fixture.cottage]
           [Fixture.flat; Fixture.villa; Fixture.cottage]).
  - left. reflexivity.
  - repeat constructor; discriminate.
  - split; [apply Permutation_swap | intros _; reflexivity].
  - exists [], [Fixture.flat], []. reflexivity.
  - split; reflexivity.
Defined.

(** A record without a rating has the sort key [NaN], which compares
    equal to every rating while the ratings differ among themselves:
    the callback is not consistent and the order is the engine's.
    Sorting the ratings 3, 5, 4.5, none, 4 in ascending order, an engine
    that takes the first two records as a run and places the others by
    binary insertion puts 4.5 between 3 and 5, leaves the record without
    a rating where it is (no comparison puts it below), and places 4
    after comparing it with 5, 4.5 and 3 only: behind 3, in front of the
    record without a rating that it followed in the input. *)
Lemma sort_may_reorder_unrated :
  let q := parse [("sort_by", "rating"); ("order", "asc")] in
  let arr := [Fixture.cottage; Fixture.unnamed; Fixture.villa;
              Fixture.priced 7; Fixture.flat] in
  let out := [Fixture.cottage; Fixture.flat; Fixture.villa;
              Fixture.unnamed; Fixture.priced 7] in
  recognized (sort_by q)
  ∧ precedes (Fixture.priced 7) Fixture.flat arr
  ∧ tie (sort_key Fixture.no_date q (Fixture.priced 7))
        (sort_key Fixture.no_date q Fixture.flat)
  ∧ may_sort (comparefn Fixture.no_date q) arr out
  ∧ ¬ precedes (Fixture.priced 7) Fixture.flat out.
Proof.
  intros q arr out. split; [right; left; reflexivity|].
  split; [by exists [Fixture.cottage; Fixture.unnamed; Fixture.villa], [], []|].
  split; [split; reflexivity|]. split; [split|].
  - apply perm_skip.
    etransitivity;
      [apply (Permutation_cons_append
                [Fixture.villa; Fixture.unnamed; Fixture.priced 7])|].
    apply Permutation_swap.
  - intros Hcons. exfalso.
    destruct (Hcons Fixture.flat (Fixture.priced 7) Fixture.unnamed)
      as (_ & _ & Htrans & _);
      [subst arr; rewrite !elem_of_cons; tauto..|].
    destruct Htrans as [Hlt _]; [split; reflexivity..|].
    vm_compute in Hlt. discriminate Hlt.
  - intros H. subst out.
    repeat (apply precedes_cons in H as [[H _] | H]; [discriminate H|]).
    apply precedes_cons in H as [[_ H] | H].
    + by apply not_elem_of_nil in H.
    + by apply precedes_nil in H.
Qed.

(** Prices 200, 50, 100 in ascending order are 50, 100, 200. *)
Example sorted_by_price_ascending :
  sorted Fixture.no_date (parse [("sort_by", "price"); ("order", "asc")])
    [Fixture.priced 200; Fixture.priced 50; Fixture.priced 100]
  = [Fixture.priced 50; Fixture.priced 100; Fixture.priced 200].
Proof. reflexivity. Qed.

End sorter_examples.

Section filterer_examples.
Import JsNumber Route Spec.

Lemma filtered_keeps_satisfying_witness :
  ∃ f : property → bool,
    (∀ p, f p = true ↔ satisfies (parse [("min_price", "110")]) p)
    ∧ filtered (parse [("min_price", "110")])
        [Fixture.villa; Fixture.no_location]
      = Ok (List.filter f [Fixture.villa; Fixture.no_location]).
Proof.
  apply (filtered_keeps_satisfying [("min_price", "110")]
           [Fixture.villa; Fixture.no_location]).
  left. reflexivity.
Defined.

End filterer_examples.

(** ** The query builder *)

(** Every lemma on the query text goes through the five tests of
    [buildQuery]. *)
Ltac by_cases_of_buildQuery :=
  unfold Client.buildQuery, Client.append; simpl;
  repeat match goal with
         | |- context [if ?b then _ else _] => destruct b
         end;
  reflexivity.

Section encoder.
Import JsString JsNumber Client Spec.

Implicit Types (locale : string) (filterState : FilterState).

(** The keys the builder emits, in their order. *)
Lemma keys_buildQuery locale filterState :
  keys (buildQuery locale filterState)
  = (["locale"]
     ++ (if truthy (trim (search filterState)) then ["search"] else [])
     ++ ["sortBy"; "sortDirection"]
     ++ (if (0 <? length (status filterState))%nat then ["status"] else [])
     ++ (if (0 <? length (type filterState))%nat then ["type"] else [])
     ++ (if gt (minPrice filterState) (of_Z 0) then ["minPrice"] else [])
     ++ (if lt (maxPrice filterState) (of_Z 1000) then ["maxPrice"] else [])
     ++ ["page"; "limit"])%list.
Proof. unfold keys. by_cases_of_buildQuery. Qed.

Lemma length_pos {A} (l : list A) : (0 <? length l)%nat = true ↔ l ≠ [].
Proof. by destruct l. Qed.

(** C8, as the code has it. The builder omits [search] exactly when the
    search text is empty once trimmed, [status] and [type] exactly when
    their arrays are empty, [minPrice] exactly when the minimum is not
    above 0, and [maxPrice] exactly when the maximum is not below 1000;
    it always emits [sortBy], [sortDirection], [page] and [limit]. *)
Theorem buildQuery_keys locale filterState :
  ("search" ∈ keys (buildQuery locale filterState)
     ↔ trim (search filterState) ≠ "")
  ∧ ("status" ∈ keys (buildQuery locale filterState)
     ↔ status filterState ≠ [])
  ∧ ("type" ∈ keys (buildQuery locale filterState)
     ↔ type filterState ≠ [])
  ∧ ("minPrice" ∈ keys (buildQuery locale filterState)
     ↔ gt (minPrice filterState) (of_Z 0) = true)
  ∧ ("maxPrice" ∈ keys (buildQuery locale filterState)
     ↔ lt (maxPrice filterState) (of_Z 1000) = true)
  ∧ "sortBy" ∈ keys (buildQuery locale filterState)
  ∧ "sortDirection" ∈ keys (buildQuery locale filterState)
  ∧ "page" ∈ keys (buildQuery locale filterState)
  ∧ "limit" ∈ keys (buildQuery locale filterState).
Proof.
  rewrite keys_buildQuery, <- truthy_true, <- !length_pos.
  destruct (truthy (trim (search filterState))),
           (0 <? length (status filterState))%nat,
           (0 <? length (type filterState))%nat,
           (gt (minPrice filterState) (of_Z 0)),
           (lt (maxPrice filterState) (of_Z 1000));
    simpl; rewrite !list_elem_of_In; simpl;
    repeat split; intros; try discriminate; intuition congruence.
Qed.

(** A search text of one space is not the default, and its key is
    omitted all the same. *)
Lemma buildQuery_omits_blank_search :
  search Fixture.blank_search ≠ ""
  ∧ "search" ∉ keys (buildQuery "en" Fixture.blank_search).
Proof.
  split; [discriminate|].
  rewrite list_elem_of_In. simpl. intuition discriminate.
Qed.

End encoder.

(** ** Encoding a state and parsing it back *)

Section digits.
Import JsString JsNumber.

Local Abbreviation string_of_uint := DecimalString.NilEmpty.string_of_uint.

Lemma span_digits_string_of_uint (u : Decimal.uint) :
  span_digits (string_of_uint u) = (u, "").
Proof. induction u; simpl; rewrite ?IHu; reflexivity. Qed.

Lemma hex_prefix_string_of_uint (u : Decimal.uint) :
  hex_prefix (string_of_uint u) = None.
Proof. destruct u as [|u|u|u|u|u|u|u|u|u|u]; try done. by destruct u. Qed.

Lemma trimStart_string_of_uint (u : Decimal.uint) :
  trimStart (string_of_uint u) = string_of_uint u.
Proof. by destruct u. Qed.

Lemma strip_sign_string_of_uint (u : Decimal.uint) :
  strip_sign (string_of_uint u) = (false, string_of_uint u).
Proof. by destruct u. Qed.

Lemma to_uint_nonnil (n : N) : N.to_uint n ≠ Decimal.Nil.
Proof.
  destruct n as [|p]; [done|]. apply DecimalPos.Unsigned.to_uint_nonnil.
Qed.

Lemma parse_digits_string_of_uint (negative : bool) (n : N) :
  parse_digits negative (digits_of_N n) = signed negative n.
Proof.
  unfold parse_digits, digits_of_N.
  rewrite hex_prefix_string_of_uint, span_digits_string_of_uint. simpl fst.
  pose proof (to_uint_nonnil n) as Hnil.
  pose proof (DecimalN.Unsigned.of_to n) as Hn.
  destruct (N.to_uint n); try done; by rewrite Hn.
Qed.

(** The digits of [n], with or without a minus sign, parse to [n]. *)
Lemma parseInt_digits_of_N (n : N) :
  parseInt (digits_of_N n) = of_Z (Z.of_N n)
  ∧ parseInt ("-" ++ digits_of_N n) = of_Z (- Z.of_N n).
Proof.
  split.
  - unfold parseInt, digits_of_N.
    rewrite trimStart_string_of_uint, strip_sign_string_of_uint.
    apply parse_digits_string_of_uint.
  - apply (parse_digits_string_of_uint true).
Qed.

Lemma unsigned_toString_inject_Z (z : Z) :
  unsigned_toString (inject_Z z) = digits_of_N (Z.to_N z).
Proof.
  unfold unsigned_toString. simpl.
  rewrite N.mod_1_r, !N.div_1_r. reflexivity.
Qed.

Lemma toString_of_Z (z : Z) :
  toString (of_Z z)
  = if (z <? 0)%Z then "-" ++ digits_of_N (Z.to_N (- z))
    else digits_of_N (Z.to_N z).
Proof.
  unfold toString, of_Z. rewrite Qred_inject_Z.
  destruct z as [|p|p]; simpl sgn; cbv iota;
    rewrite <- ?inject_Z_opp, ?unsigned_toString_inject_Z; done.
Qed.

(** An integer printed by [toString] is read back by [parseInt]. *)
Lemma parseInt_toString (z : Z) : parseInt (toString (of_Z z)) = of_Z z.
Proof.
  rewrite toString_of_Z. destruct (Z.ltb_spec z 0).
  - destruct (parseInt_digits_of_N (Z.to_N (- z))) as [_ ->].
    f_equal. lia.
  - destruct (parseInt_digits_of_N (Z.to_N z)) as [-> _].
    f_equal. lia.
Qed.

End digits.

Section arrays.
Import JsString Spec.

Lemma comma_free_cons (c : ascii) (s : string) :
  includes (String c s) "," = false →
  Ascii.eqb c "," = false ∧ includes s "," = false.
Proof.
  rewrite includes_eq, orb_false_iff. simpl.
  intros [H1 H2]. split; [|done].
  destruct (Ascii.eqb c ","); [by destruct s | done].
Qed.

Lemma split_comma_free (s : string) :
  includes s "," = false → split "," s = [s].
Proof.
  induction s as [|c s IH]; [done|].
  intros H. apply comma_free_cons in H as [Hc Hs]. simpl.
  by rewrite Hc, (IH Hs).
Qed.

Lemma split_append (s rest : string) :
  includes s "," = false →
  split "," (s ++ "," ++ rest) = s :: split "," rest.
Proof.
  induction s as [|c s IH]; [done|].
  intros H. apply comma_free_cons in H as [Hc Hs].
  rewrite append_cons. simpl. by rewrite Hc, (IH Hs).
Qed.

(** Joining with commas and splitting at commas gives the array back,
    when it is not empty and no element contains a comma. *)
Lemma split_join (l : list string) :
  comma_free l → l ≠ [] → split "," (join "," l) = l.
Proof.
  unfold comma_free. induction 1 as [|x l Hx Hl IH]; [done|].
  intros _. destruct l as [|y l].
  - simpl. by apply split_comma_free.
  - change (join "," (x :: y :: l)) with (x ++ "," ++ join "," (y :: l)).
    rewrite split_append by done. f_equal. by apply IH.
Qed.

End arrays.

Section round_trip.
Import JsString JsNumber Client Spec.

Implicit Types (locale : string) (filterState : FilterState).

Lemma get_search locale filterState :
  Route.get (buildQuery locale filterState) "search"
  = if truthy (trim (search filterState))
    then Some (trim (search filterState)) else None.
Proof. by_cases_of_buildQuery. Qed.

Lemma get_status locale filterState :
  Route.get (buildQuery locale filterState) "status"
  = if (0 <? length (status filterState))%nat
    then Some (join "," (status filterState)) else None.
Proof. by_cases_of_buildQuery. Qed.

Lemma get_type locale filterState :
  Route.get (buildQuery locale filterState) "type"
  = if (0 <? length (type filterState))%nat
    then Some (join "," (type filterState)) else None.
Proof. by_cases_of_buildQuery. Qed.

Lemma get_page locale filterState :
  Route.get (buildQuery locale filterState) "page"
  = Some (toString (page filterState)).
Proof. by_cases_of_buildQuery. Qed.

Lemma get_limit locale filterState :
  Route.get (buildQuery locale filterState) "limit" = Some "10".
Proof. by_cases_of_buildQuery. Qed.

Lemma array_round_trip (l : list string) :
  comma_free l →
  default [] (split "," <$>
                (if (0 <? length l)%nat then Some (join "," l) else None))
  = l.
Proof.
  intros Hl. destruct l as [|x l]; [done|].
  change (split "," (join "," (x :: l)) = x :: l).
  by apply split_join.
Qed.

Lemma toString_truthy (z : Z) : truthy (toString (of_Z z)) = true.
Proof.
  rewrite toString_of_Z. destruct (z <? 0)%Z; [done|].
  unfold digits_of_N. pose proof (to_uint_nonnil (Z.to_N z)).
  by destruct (N.to_uint (Z.to_N z)).
Qed.

(** C1, as the code has it. Encoding a state with [buildQuery] and
    parsing the query in the route gives back the status array and the
    type array (when none of their values contains a comma) and the
    page (an integer that prints in plain digits); the search text
    comes back trimmed and in lower case; the page size is the 10 the
    builder always sends. *)
Theorem round_trip locale filterState (n : Z) :
  comma_free (status filterState) →
  comma_free (type filterState) →
  page filterState = of_Z n →
  (Z.abs n < 10 ^ 21)%Z →
  Route.search (Route.parse (buildQuery locale filterState))
    = toLowerCase (trim (search filterState))
  ∧ Route.status (Route.parse (buildQuery locale filterState))
    = status filterState
  ∧ Route.type (Route.parse (buildQuery locale filterState))
    = type filterState
  ∧ Route.page (Route.parse (buildQuery locale filterState))
    = page filterState
  ∧ Route.limit (Route.parse (buildQuery locale filterState)) = of_Z 10.
Proof.
  intros Hstatus Htype Hpage _. unfold Route.parse.
  cbn [Route.search Route.status Route.type Route.page Route.limit].
  rewrite get_search, get_status, get_type, get_page, get_limit.
  repeat split.
  - destruct (trim (search filterState)) as [|c s] eqn:E; [done|].
    cbn [truthy]. cbv iota. simpl. done.
  - by apply array_round_trip.
  - by apply array_round_trip.
  - rewrite Hpage. unfold Route.or_else. rewrite toString_truthy.
    apply parseInt_toString.
Qed.

Lemma round_trip_witness :
  Route.search (Route.parse (buildQuery "en" Fixture.page3))
    = toLowerCase (trim (search Fixture.page3))
  ∧ Route.status (Route.parse (buildQuery "en" Fixture.page3))
    = status Fixture.page3
  ∧ Route.type (Route.parse (buildQuery "en" Fixture.page3))
    = type Fixture.page3
  ∧ Route.page (Route.parse (buildQuery "en" Fixture.page3))
    = page Fixture.page3
  ∧ Route.limit (Route.parse (buildQuery "en" Fixture.page3)) = of_Z 10.
Proof.
  apply (round_trip "en" Fixture.page3 3).
  - repeat constructor.
  - repeat constructor.
  - reflexivity.
  - reflexivity.
Defined.

(** The sort field, the sort direction, both price bounds and the
    search text of [page3] are not at their defaults, and none of them
    comes back from the round trip: the route reads [sort_by], [order],
    [min_price] and [max_price], which the builder never sends, and the
    search text arrives trimmed and in lower case. *)
Lemma round_trip_loses_fields :
  (sortBy Fixture.page3 = "price"
   ∧ Route.sort_by (Route.parse (buildQuery "en" Fixture.page3))
     = "last_updated")
  ∧ (sortDirection Fixture.page3 = "asc"
     ∧ Route.order (Route.parse (buildQuery "en" Fixture.page3)) = "desc")
  ∧ (minPrice Fixture.page3 = of_Z 10
     ∧ Route.minPrice (Route.parse (buildQuery "en" Fixture.page3)) = of_Z 0)
  ∧ (maxPrice Fixture.page3 = of_Z 500
     ∧ Route.maxPrice (Route.parse (buildQuery "en" Fixture.page3)) = PInf)
  ∧ (search Fixture.page3 = " Villa "
     ∧ Route.search (Route.parse (buildQuery "en" Fixture.page3)) = "villa")
  ∧ Route.sort_by (Route.parse (buildQuery "en" Fixture.page3))
    ≠ sortBy Fixture.page3
  ∧ Route.order (Route.parse (buildQuery "en" Fixture.page3))
    ≠ sortDirection Fixture.page3
  ∧ Route.minPrice (Route.parse (buildQuery "en" Fixture.page3))
    ≠ minPrice Fixture.page3
  ∧ Route.maxPrice (Route.parse (buildQuery "en" Fixture.page3))
    ≠ maxPrice Fixture.page3
  ∧ Route.search (Route.parse (buildQuery "en" Fixture.page3))
    ≠ search Fixture.page3.
Proof. repeat split; discriminate. Qed.

End round_trip.

(** * Further properties *)

(** ** More on the sorter *)

Section sorter_order.
Import JsString JsNumber Route Spec Paging.

Context {A : Type}.
Implicit Types (cmp : A → A → num) (l : list A).

(** A sequence already in order comes back as it is. *)
Lemma array_sort_of_sorted cmp l :
  Sorted (λ a b, in_order (cmp a b) = true) l → array_sort cmp l = l.
Proof.
  induction 1 as [|x l Hl IH Hhd]; simpl; [done|].
  rewrite IH. destruct Hhd as [|y l Hxy]; simpl; [done|]. by rewrite Hxy.
Qed.

Lemma array_sort_ext cmp cmp' l :
  (∀ a b, cmp a b = cmp' a b) → array_sort cmp l = array_sort cmp' l.
Proof.
  intros Hext. induction l as [|x l IH]; simpl; [done|]. rewrite IH.
  generalize (array_sort cmp' l). intros s.
  induction s as [|y s IHs]; simpl; [done|]. by rewrite Hext, IHs.
Qed.

Lemma Sorted_weaken (R R' : A → A → Prop) (P : A → Prop) l :
  (∀ a b, P a → P b → R a b → R' a b) →
  Forall P l → Sorted R l → Sorted R' l.
Proof.
  intros Himp HP. induction 1 as [|x l Hl IH Hhd]; [constructor|].
  apply Forall_cons in HP as [Hx HP]. constructor; [by apply IH|].
  destruct Hhd as [|y l Hxy]; constructor.
  apply Forall_cons in HP as [Hy _]. by apply Himp.
Qed.

End sorter_order.

Section sorter_more.
Import JsString JsNumber Route Spec Paging.

Variable Date_getTime : string → num.

Lemma comparefn_total (q : params) (a b : property) :
  in_order (comparefn Date_getTime q a b) = true
  ∨ in_order (comparefn Date_getTime q b a) = true.
Proof.
  unfold comparefn.
  destruct (String.eqb (sort_by q) "price" || String.eqb (sort_by q) "rating"),
    (String.eqb (sort_by q) "last_updated"), (String.eqb (order q) "asc");
    try apply sub_in_order_total; by left.
Qed.

Lemma num_le_trans (x y z : num) : num_le x y → num_le y z → num_le x z.
Proof.
  destruct x as [| | |x], y as [| | |y], z as [| | |z]; simpl; try done.
  apply Qle_trans.
Qed.

(** The difference of two keys that are numbers is not above zero only
    when the first is not above the second. *)
Lemma in_order_num_le (x y : num) :
  x ≠ NaN → y ≠ NaN → in_order (sub x y) = true → num_le x y.
Proof.
  unfold in_order, gt.
  destruct x as [| | |x], y as [| | |y]; simpl; try done.
  intros _ _. rewrite negb_involutive. change (inject_Z 0) with 0%Q.
  rewrite Qle_bool_iff, Qred_correct. intros H.
  apply (Qplus_le_l _ _ (- y)). by ring_simplify (y + - y)%Q.
Qed.

(** The sorter gives back the records it was given, each as often as it
    was there. *)
Theorem sorted_is_permutation (q : params) (arr : list property) :
  sorted Date_getTime q arr ≡ₚ arr
  ∧ length (sorted Date_getTime q arr) = length arr.
Proof.
  assert (sorted Date_getTime q arr ≡ₚ arr) as H by apply array_sort_perm.
  split; [done|]. by rewrite H.
Qed.

(** Under a recognized sort field, and when every record has a sort key
    that is a number, the output is in the order of the keys: each
    record's key is not above (ascending) or not below (any other
    direction) the key of every record after it. *)
Theorem sorted_by_key (q : params) (arr : list property) :
  recognized (sort_by q) →
  Forall (λ p, sort_key Date_getTime q p ≠ NaN) arr →
  StronglySorted (key_order Date_getTime q) (sorted Date_getTime q arr).
Proof.
  intros Hrec Hkeys. apply Sorted_StronglySorted.
  - intros a b c. unfold key_order.
    destruct (String.eqb (order q) "asc"); eauto using num_le_trans.
  - apply (Sorted_weaken
             (λ a b, in_order (comparefn Date_getTime q a b) = true) _
             (λ p, sort_key Date_getTime q p ≠ NaN)).
    + intros a b Ha Hb. rewrite comparefn_sort_key by done.
      unfold key_order. destruct (String.eqb (order q) "asc");
        by apply in_order_num_le.
    + unfold sorted. by rewrite array_sort_perm.
    + apply array_sort_sorted, comparefn_total.
Qed.

(** Under a recognized sort field, and when every record has a sort key
    that is a number, sorting a second time changes nothing, in either
    direction. *)
Theorem sorted_idempotent (q : params) (arr : list property) :
  recognized (sort_by q) →
  Forall (λ p, sort_key Date_getTime q p ≠ NaN) arr →
  sorted Date_getTime q (sorted Date_getTime q arr)
  = sorted Date_getTime q arr.
Proof.
  intros _ _. apply array_sort_of_sorted, array_sort_sorted, comparefn_total.
Qed.

(** A direction that is not [asc] sorts as [desc] does. *)
Theorem sorted_other_order (q : params) (arr : list property) :
  order q ≠ "asc" →
  sorted Date_getTime q arr
  = sorted Date_getTime (with_order q "desc") arr.
Proof.
  intros Hne. apply array_sort_ext. intros a b. unfold comparefn. simpl.
  by destruct (String.eqb_spec (order q) "asc").
Qed.

End sorter_more.

(** ** More on the paginator *)

Section paginator_more.
Import JsNumber Route Paging.
Local Open Scope Z_scope.

Lemma le_of_Z (a b : Z) : le (of_Z a) (of_Z b) = true ↔ a ≤ b.
Proof. simpl. unfold Qle_bool. simpl. rewrite Z.leb_le. lia. Qed.

(** Between indices that are not negative, a slice is a [take] of a
    [drop]. *)
Lemma slice_take_drop {A} (l : list A) (s e : Z) :
  0 ≤ s ≤ e →
  slice l (of_Z s) (of_Z e) = take (Z.to_nat (e - s)) (drop (Z.to_nat s) l).
Proof.
  intros Hse. unfold slice. rewrite !relative_index_of_Z.
  destruct (Z.ltb_spec s 0), (Z.ltb_spec e 0); try lia.
  set (len := Z.of_nat (length l)).
  destruct (Z.le_gt_cases len s) as [Hs | Hs].
  - rewrite !drop_ge by lia. by rewrite !take_nil.
  - replace (Z.min s len) with s by lia.
    destruct (Z.le_gt_cases e len) as [He | He].
    + by replace (Z.min e len) with e by lia.
    + replace (Z.min e len) with len by lia.
      rewrite !take_ge; [done | |]; rewrite length_drop; lia.
Qed.

Lemma at_page_fields (q : params) (P : Z) :
  page (at_page q P) = of_Z P ∧ limit (at_page q P) = limit q.
Proof. done. Qed.

Lemma paginated_take_drop (q : params) (arr : list property) (P L : Z) :
  page q = of_Z P → limit q = of_Z L → 1 ≤ P → 0 < L →
  paginated q arr
  = take (Z.to_nat L) (drop (Z.to_nat ((P - 1) * L)) arr).
Proof.
  intros HP HL HP1 HL0. unfold paginated.
  rewrite (start_of_Z q P L), HL, add_of_Z by done.
  rewrite slice_take_drop by nia. do 2 f_equal. lia.
Qed.

Lemma totalPages_bounds (q : params) (arr : list property) (L : Z) :
  limit q = of_Z L → 0 < L →
  ∃ T, totalPages q arr = of_Z T
       ∧ Z.of_nat (length arr) ≤ T * L < Z.of_nat (length arr) + L.
Proof.
  intros HL HL0. eexists. split; [by apply totalPages_of_Z|].
  pose proof (Z.mul_div_le (- Z.of_nat (length arr)) L HL0) as Hle.
  pose proof (Z.mul_succ_div_gt (- Z.of_nat (length arr)) L HL0) as Hgt.
  set (d := - Z.of_nat (length arr) / L) in *. lia.
Qed.

(** A page from 1 on is the [limit] records that follow the
    [(page - 1) * limit] records of the pages before it. *)
Theorem paginated_from_page_one (q : params) (arr : list property)
  (P L : Z) :
  page q = of_Z P → limit q = of_Z L → 1 ≤ P → 0 < L →
  paginated q arr
  = take (Z.to_nat L) (drop (Z.to_nat ((P - 1) * L)) arr).
Proof. apply paginated_take_drop. Qed.

(** No page holds more than [limit] records, whatever the page number;
    every page from 1 on that is not the last holds exactly [limit]. *)
Theorem paginated_length (q : params) (arr : list property) (P L T : Z) :
  page q = of_Z P → limit q = of_Z L → 0 < L →
  totalPages q arr = of_Z T →
  (Z.of_nat (length (paginated q arr)) ≤ L)
  ∧ (1 ≤ P < T → Z.of_nat (length (paginated q arr)) = L).
Proof.
  intros HP HL HL0 HT.
  rewrite (totalPages_of_Z q arr L) in HT by done.
  assert (T = - (- Z.of_nat (length arr) / L)) as ->
    by (unfold of_Z in HT; by injection HT).
  pose proof (Z.mul_div_le (- Z.of_nat (length arr)) L HL0) as Hle.
  pose proof (Z.mul_succ_div_gt (- Z.of_nat (length arr)) L HL0) as Hgt.
  set (d := - Z.of_nat (length arr) / L) in *.
  split.
  - unfold paginated, slice.
    rewrite (start_of_Z q P L), HL, add_of_Z, !relative_index_of_Z by done.
    rewrite length_take, length_drop.
    replace ((P - 1) * L + L) with (P * L) by ring.
    replace ((P - 1) * L) with (P * L - L) by ring.
    set (len := Z.of_nat (length arr)).
    destruct (P * L <? 0) eqn:E1, (P * L - L <? 0) eqn:E2; lia.
  - intros [HP1 HPT].
    rewrite (paginated_take_drop q arr P L) by done.
    rewrite length_take, length_drop.
    assert ((P - 1) * L + L ≤ (- d - 1) * L) by nia.
    nia.
Qed.

(** From page 1 on, a page is empty exactly when it lies beyond
    [totalPages]. *)
Theorem paginated_nonempty_iff (q : params) (arr : list property) (P L : Z) :
  page q = of_Z P → limit q = of_Z L → 1 ≤ P → 0 < L →
  paginated q arr ≠ [] ↔ le (page q) (totalPages q arr) = true.
Proof.
  intros HP HL HP1 HL0.
  rewrite (paginated_empty q arr P L), !relative_index_of_Z by done.
  rewrite (totalPages_of_Z q arr L), HP, le_of_Z by done.
  pose proof (Z.mul_div_le (- Z.of_nat (length arr)) L HL0) as Hle.
  pose proof (Z.mul_succ_div_gt (- Z.of_nat (length arr)) L HL0) as Hgt.
  set (d := - Z.of_nat (length arr) / L) in *.
  set (len := Z.of_nat (length arr)) in *.
  assert (0 ≤ (P - 1) * L) by nia.
  assert (0 ≤ P * L) by nia.
  destruct (P * L <? 0) eqn:E1, ((P - 1) * L <? 0) eqn:E2; try lia.
  split.
  - intros Hne. assert ((P - 1) * L < len) by lia. nia.
  - intros HPd. assert ((P - 1) * L < len) by nia. lia.
Qed.

(** [totalPages] is the least number of pages of [limit] records that
    hold the whole sequence. *)
Theorem totalPages_least (q : params) (arr : list property) (L : Z) :
  limit q = of_Z L → 0 < L →
  ∃ T, totalPages q arr = of_Z T
       ∧ Z.of_nat (length arr) ≤ T * L < Z.of_nat (length arr) + L.
Proof. apply totalPages_bounds. Qed.

Lemma concat_chunks {A} (l : list A) (n T : nat) :
  concat (map (λ i, take n (drop (i * n) l)) (seq 0 T)) = take (T * n) l.
Proof.
  induction T as [|T IH]; [by rewrite take_0|].
  rewrite seq_S, map_app, concat_app, IH. simpl.
  rewrite app_nil_r, take_take_drop. f_equal. lia.
Qed.

(** The pages 1 to [totalPages], one after the other, are the whole
    sequence: no record is left out and none comes twice. *)
Theorem pages_cover (q : params) (arr : list property) (L : Z) (T : nat) :
  limit q = of_Z L → 0 < L → totalPages q arr = of_nat T →
  concat (pages q arr T) = arr.
Proof.
  intros HL HL0 HT. unfold pages.
  destruct (totalPages_bounds q arr L HL HL0) as (T' & HT' & Hlen).
  assert (T' = Z.of_nat T) as ->
    by (rewrite HT' in HT; unfold of_nat, of_Z in HT; by injection HT).
  erewrite map_ext_in; [rewrite (concat_chunks arr (Z.to_nat L) T)|].
  - apply take_ge. nia.
  - intros i _. simpl.
    rewrite (paginated_take_drop (at_page q (Z.of_nat (S i))) arr
               (Z.of_nat (S i)) L) by (done || lia).
    do 2 f_equal. nia.
Qed.

End paginator_more.

(** ** Limits that are not positive *)

Section limit_edge.
Import JsString JsNumber Route Paging.
Local Open Scope Z_scope.

(** [parseInt] gives an integer or [NaN], never a fraction or an
    infinity. *)
Lemma parseInt_integer (s : string) :
  parseInt s = NaN ∨ ∃ z, parseInt s = of_Z z.
Proof.
  unfold parseInt. destruct (strip_sign (trimStart s)) as [negative s1].
  unfold parse_digits, signed.
  destruct (hex_prefix s1) as [s2|].
  - destruct (span_hex_digits s2); eauto.
  - destruct (fst (span_digits s1)); eauto.
Qed.

(** With a limit that is zero or not a number, every page is empty,
    whatever the page number in the query; with a limit that is zero and
    written without a minus sign, the number of pages the route computes
    is [Infinity], or [NaN] when there is no record. *)
Theorem paginated_without_limit
  (searchParams : list (string * string)) (arr : list property) :
  limit (parse searchParams) = NaN ∨ limit (parse searchParams) = of_Z 0 →
  paginated (parse searchParams) arr = []
  ∧ (limit (parse searchParams) = of_Z 0 →
     unsigned_limit searchParams →
     totalPages (parse searchParams) arr
     = match arr with [] => NaN | _ => PInf end).
Proof.
  intros Hlimit. split.
  - unfold paginated, start.
    assert (page (parse searchParams) = NaN
            ∨ ∃ P, page (parse searchParams) = of_Z P) as [HP | [P HP]]
      by apply parseInt_integer.
    + rewrite HP. simpl sub. by destruct Hlimit as [-> | ->].
    + rewrite HP. destruct Hlimit as [-> | ->]; [reflexivity|].
      rewrite sub_of_Z, mul_of_Z, add_of_Z. apply slice_empty.
      by replace ((P - 1) * 0 + 0) with ((P - 1) * 0) by ring.
  - intros H0 _. unfold totalPages. rewrite H0. by destruct arr.
Qed.

Lemma paginated_without_limit_witness :
  paginated (parse [("limit", "0")]) [Fixture.villa] = []
  ∧ (limit (parse [("limit", "0")]) = of_Z 0 →
     unsigned_limit [("limit", "0")] →
     totalPages (parse [("limit", "0")]) [Fixture.villa] = PInf).
Proof.
  apply (paginated_without_limit [("limit", "0")] [Fixture.villa]).
  right. reflexivity.
Defined.

(** With a negative limit [-n], page 1 is the whole sequence but its
    last [n] records: the end of the slice is counted from the end of
    the sequence. *)
Theorem paginated_negative_limit (q : params) (arr : list property) (L : Z) :
  page q = of_Z 1 → limit q = of_Z L → L < 0 →
  paginated q arr = take (Z.to_nat (Z.of_nat (length arr) + L)) arr.
Proof.
  intros HP HL HL0. unfold paginated, slice.
  rewrite (start_of_Z q 1 L), HL, add_of_Z, !relative_index_of_Z by done.
  replace ((1 - 1) * L + L) with L by ring.
  replace ((1 - 1) * L) with 0 by ring.
  destruct (Z.ltb_spec L 0); [|lia].
  change (0 <? 0) with false. cbv iota.
  replace (Z.min 0 (Z.of_nat (length arr))) with 0 by lia.
  rewrite drop_0. f_equal. lia.
Qed.

Lemma paginated_negative_limit_witness :
  paginated (parse [("limit", "-1")]) [Fixture.villa; Fixture.flat]
  = take (Z.to_nat (Z.of_nat (length [Fixture.villa; Fixture.flat]) + -1))
      [Fixture.villa; Fixture.flat].
Proof.
  apply (paginated_negative_limit (parse [("limit", "-1")])
           [Fixture.villa; Fixture.flat] (-1)); reflexivity.
Defined.

End limit_edge.

(** ** The route as a whole *)

Section route.
Import JsString JsNumber Route Spec Paging.

Variable Date_getTime : string → num.

(** Whenever the callback answers, it answers with the four clauses. *)
Lemma keep_ok (q : params) (p : property) (b : bool) :
  keep q p = Ok b → b = satisfiesb q p.
Proof.
  unfold keep, satisfiesb, text_includes.
  destruct (truthy (search q)); simpl; [|by intros [= <-]].
  destruct (p_name p) as [name|]; simpl; [|done].
  destruct (includes (toLowerCase name) (search q)); simpl;
    [by intros [= <-]|].
  destruct (p_location p) as [location|]; simpl; [|done].
  by intros [= <-].
Qed.

Lemma keep_throw (q : params) (p : property) (e : string) :
  keep q p = Throw e → e = TypeError ∧ search q ≠ "" ∧ ¬ has_text p.
Proof.
  unfold keep, has_text. destruct (truthy (search q)) eqn:Hs; simpl; [|done].
  apply truthy_true in Hs.
  destruct (p_name p) as [name|]; simpl.
  - destruct (includes (toLowerCase name) (search q)); simpl; [done|].
    destruct (p_location p) as [location|]; simpl; [done|].
    intros [= <-]. repeat split; [done|]. by intros [_ [? ?]].
  - intros [= <-]. repeat split; [done|]. by intros [[? ?] _].
Qed.

Lemma array_filter_ok (q : params) (arr kept : list property) :
  array_filter (keep q) arr = Ok kept → kept = List.filter (satisfiesb q) arr.
Proof.
  revert kept. induction arr as [|p arr IH]; simpl; intros kept.
  - by intros [= <-].
  - destruct (keep q p) as [b|e] eqn:Hp; simpl; [|done].
    apply keep_ok in Hp as ->.
    destruct (array_filter (keep q) arr) as [kept'|e]; simpl; [|done].
    intros [= <-]. by rewrite (IH kept').
Qed.

Lemma array_filter_throw (q : params) (arr : list property) (e : string) :
  array_filter (keep q) arr = Throw e →
  ∃ p, p ∈ arr ∧ keep q p = Throw e.
Proof.
  induction arr as [|p arr IH]; simpl; [done|].
  destruct (keep q p) as [b|e'] eqn:Hp; simpl.
  - destruct (array_filter (keep q) arr) as [kept'|e']; simpl; [done|].
    intros [= ->]. destruct IH as (p' & Hin & H); [done|].
    exists p'. split; [by right | done].
  - intros [= ->]. exists p. split; [by left | done].
Qed.

Lemma GET_unfold (properties : list property)
  (searchParams : list (string * string)) :
  GET Date_getTime properties searchParams
  = match filtered (parse searchParams) properties with
    | Ok kept =>
        Ok {| resp_data :=
                paginated (parse searchParams)
                  (sorted Date_getTime (parse searchParams) kept);
              resp_total :=
                of_nat (length (sorted Date_getTime (parse searchParams) kept));
              resp_page := page (parse searchParams);
              resp_totalPages :=
                totalPages (parse searchParams)
                  (sorted Date_getTime (parse searchParams) kept) |}
    | Throw e => Throw e
    end.
Proof. unfold GET. by destruct (filtered _ _). Qed.

(** The route answers whenever the search text is empty or every record
    has its name and location.  When it throws, it throws a [TypeError],
    the search text is not empty, and some record lacks its name or its
    location. *)
Theorem GET_throws_only_for_missing_text (properties : list property)
  (searchParams : list (string * string)) :
  (search (parse searchParams) = "" ∨ Forall has_text properties →
   ∃ r, GET Date_getTime properties searchParams = Ok r)
  ∧ (∀ e, GET Date_getTime properties searchParams = Throw e →
       e = TypeError
       ∧ search (parse searchParams) ≠ ""
       ∧ ∃ p, p ∈ properties ∧ ¬ has_text p).
Proof.
  assert (∀ e, GET Date_getTime properties searchParams = Throw e →
            e = TypeError
            ∧ search (parse searchParams) ≠ ""
            ∧ ∃ p, p ∈ properties ∧ ¬ has_text p) as Hthrow.
  { intros e. rewrite GET_unfold. unfold filtered.
    destruct (array_filter _ properties) as [kept|e'] eqn:Hf; [done|].
    intros [= ->]. apply array_filter_throw in Hf as (p & Hin & Hp).
    apply keep_throw in Hp as (-> & Hs & Hp). eauto. }
  split; [|done]. intros Hcond.
  destruct (GET Date_getTime properties searchParams) as [r|e] eqn:HGET;
    [by exists r|].
  destruct (Hthrow e eq_refl) as (_ & Hs & p & Hin & Hp).
  destruct Hcond as [Hempty | Hall]; [done|].
  rewrite Forall_forall in Hall. destruct Hp. by apply Hall.
Qed.

Lemma elem_of_slice {X} (l : list X) (a b : num) (x : X) :
  x ∈ slice l a b → x ∈ l.
Proof.
  unfold slice. intros H.
  apply subseteq_take in H. by apply subseteq_drop in H.
Qed.

(** Every record of a response is a record of the fixture that satisfies
    the four clauses of the query, and [total] counts all the records
    that satisfy them, on whatever page and in whatever order. *)
Theorem GET_response_sound (properties : list property)
  (searchParams : list (string * string)) (r : response) :
  GET Date_getTime properties searchParams = Ok r →
  (∀ p, p ∈ resp_data r →
        p ∈ properties ∧ satisfies (parse searchParams) p)
  ∧ (length (resp_data r) ≤ length properties)%nat
  ∧ ∃ f : property → bool,
      (∀ p, f p = true ↔ satisfies (parse searchParams) p)
      ∧ resp_total r = of_nat (length (List.filter f properties)).
Proof.
  rewrite GET_unfold. unfold filtered.
  destruct (array_filter _ properties) as [kept|e] eqn:Hf; [|done].
  intros [= <-]. simpl. apply array_filter_ok in Hf as ->.
  set (q := parse searchParams).
  assert (Hspec : ∀ p, satisfiesb q p = true ↔ satisfies q p)
    by (intros p; apply satisfiesb_spec, parse_search_lower).
  split; [|split].
  - intros p Hp. apply elem_of_slice in Hp. unfold sorted in Hp.
    rewrite array_sort_perm, list_elem_of_In, filter_In in Hp.
    destruct Hp as [Hin Hb]. split; [by apply list_elem_of_In|].
    by apply Hspec.
  - unfold paginated, slice. rewrite length_take, length_drop.
    unfold sorted. rewrite array_sort_perm.
    pose proof (List.filter_length_le (satisfiesb q) properties). lia.
  - exists (satisfiesb q). split; [done|].
    unfold sorted. by rewrite array_sort_perm.
Qed.

End route.

(** ** More on the filterer *)

Section filterer_more.
Import JsString JsNumber Route Spec Paging.

Lemma unfiltered_parse (searchParams : list (string * string)) :
  unfiltered searchParams →
  search (parse searchParams) = ""
  ∧ status (parse searchParams) = []
  ∧ type (parse searchParams) = []
  ∧ minPrice (parse searchParams) = of_Z 0
  ∧ maxPrice (parse searchParams) = PInf.
Proof.
  unfold unfiltered. rewrite !Forall_cons. intros (Hs & Hst & Ht & Hmin & Hmax & _).
  simpl. by rewrite Hs, Hst, Ht, Hmin, Hmax.
Qed.

(** A query without search text, status, type and price bounds still
    filters: it keeps exactly the records that have a price and whose
    price is not below zero, in their order.  A record without a name or
    a location does not make it throw. *)
Theorem filtered_by_default (searchParams : list (string * string))
  (properties : list property) :
  unfiltered searchParams →
  ∃ f : property → bool,
    (∀ p, f p = true ↔ priced_from_zero p)
    ∧ filtered (parse searchParams) properties
      = Ok (List.filter f properties).
Proof.
  intros Hsp. apply unfiltered_parse in Hsp as (Hs & Hst & Ht & Hmin & Hmax).
  exists (λ p, ge (to_number (p_price p)) (of_Z 0)). split.
  - intros p. unfold priced_from_zero, ge. rewrite le_spec.
    destruct (p_price p) as [x|]; simpl.
    + split; [intros H; by exists x | by intros (? & [= <-] & H)].
    + split; [done | by intros (? & ? & _)].
  - unfold filtered.
    apply (array_filter_total _ _ (λ _, True)); [|by apply Forall_true].
    intros p _. unfold keep. rewrite Hs, Hst, Ht, Hmin, Hmax. simpl.
    f_equal. unfold ge. destruct (to_number (p_price p)); simpl;
      by rewrite ?andb_true_r, ?andb_false_r.
Qed.

Lemma filtered_by_default_witness :
  ∃ f : property → bool,
    (∀ p, f p = true ↔ priced_from_zero p)
    ∧ filtered (parse [("page", "2")]) [Fixture.unnamed; Fixture.priced (-5)]
      = Ok (List.filter f [Fixture.unnamed; Fixture.priced (-5)]).
Proof.
  apply (filtered_by_default [("page", "2")]
           [Fixture.unnamed; Fixture.priced (-5)]).
  repeat constructor.
Defined.

(** A [status] parameter that is present and empty is not "no filter":
    it asks for the status that is the empty string, and a record with
    any other status, or with none, is not kept. *)
Theorem filtered_by_empty_status (searchParams : list (string * string))
  (properties kept : list property) :
  get searchParams "status" = Some "" →
  filtered (parse searchParams) properties = Ok kept →
  Forall (λ p, p_status p = Some "") kept.
Proof.
  intros Hst Hf. apply Forall_forall. intros p Hp. unfold filtered in Hf.
  apply array_filter_ok in Hf as ->.
  rewrite list_elem_of_In, filter_In in Hp. destruct Hp as [_ Hp].
  apply satisfiesb_spec in Hp; [|apply parse_search_lower].
  destruct Hp as (_ & Hstatus & _). unfold status_clause in Hstatus.
  simpl in Hstatus. rewrite Hst in Hstatus. simpl in Hstatus.
  destruct Hstatus as [? | (s & -> & Hs)]; [done|].
  apply list_elem_of_singleton in Hs. by subst.
Qed.

Lemma filtered_by_empty_status_witness :
  Forall (λ p, p_status p = Some "") [Fixture.unlisted].
Proof.
  apply (filtered_by_empty_status [("status", "")]
           [Fixture.villa; Fixture.unlisted] [Fixture.unlisted]);
    reflexivity.
Defined.

(** The search is blind to the case of the search text: two queries that
    agree on every other key and whose search texts differ only in case
    get the same answer. *)
Theorem GET_search_ignores_case (Date_getTime : string → num)
  (properties : list property) (sp sp' : list (string * string)) :
  (∀ k, k ≠ "search" → get sp k = get sp' k) →
  toLowerCase <$> get sp "search" = toLowerCase <$> get sp' "search" →
  GET Date_getTime properties sp = GET Date_getTime properties sp'.
Proof.
  intros Hother Hsearch.
  assert (parse sp = parse sp') as Hparse.
  { unfold parse. rewrite Hsearch.
    by rewrite !(Hother "sort_by"), !(Hother "order"), !(Hother "status"),
      !(Hother "type"), !(Hother "min_price"), !(Hother "max_price"),
      !(Hother "page"), !(Hother "limit"). }
  unfold GET. by rewrite Hparse.
Qed.

Lemma GET_search_ignores_case_witness :
  GET Fixture.no_date [Fixture.villa; Fixture.flat] [("search", "VILLA")]
  = GET Fixture.no_date [Fixture.villa; Fixture.flat] [("search", "villa")].
Proof.
  apply GET_search_ignores_case.
  - intros k Hk. unfold get.
    destruct (String.eqb_spec "search" k) as [<-|]; [done | reflexivity].
  - reflexivity.
Defined.

End filterer_more.

(** ** More on the state helpers *)

Section helpers_more.
Import JsString JsNumber Client.

Implicit Types (prev next : gmap string value) (key : string).

Lemma flip_direction (s : string) :
  match s with "asc" => "desc" | _ => "asc" end
  = if String.eqb s "asc" then "desc" else "asc".
Proof.
  destruct s as [|a s]; [done|].
  destruct a as [[] [] [] [] [] [] [] []]; try done.
  destruct s as [|a s]; [done|].
  destruct a as [[] [] [] [] [] [] [] []]; try done.
  destruct s as [|a s]; [done|].
  destruct a as [[] [] [] [] [] [] [] []]; try done.
  by destruct s.
Qed.

Lemma toggleSort_direction prev :
  toggleSort prev !! "sortDirection"
  = Some (VStr (match prev !! "sortDirection" with
                | Some (VStr s) => if String.eqb s "asc" then "desc" else "asc"
                | _ => "asc"
                end)).
Proof.
  unfold toggleSort. rewrite lookup_insert_eq. do 2 f_equal.
  destruct (prev !! "sortDirection") as [[s| |]|] eqn:E; try done.
  apply flip_direction.
Qed.

(** [toggleSort] leaves the direction at [asc] or [desc]; a direction
    that is neither goes to [asc].  Toggling twice restores a state whose
    direction was [asc] or [desc]. *)
Theorem toggleSort_twice prev :
  (toggleSort prev !! "sortDirection" = Some (VStr "asc")
   ∨ toggleSort prev !! "sortDirection" = Some (VStr "desc"))
  ∧ (prev !! "sortDirection" ≠ Some (VStr "asc") →
     toggleSort prev !! "sortDirection" = Some (VStr "asc"))
  ∧ (prev !! "sortDirection" = Some (VStr "asc")
     ∨ prev !! "sortDirection" = Some (VStr "desc") →
     toggleSort (toggleSort prev) = prev).
Proof.
  split; [|split].
  - rewrite toggleSort_direction.
    destruct (prev !! "sortDirection") as [[s| |]|]; eauto.
    destruct (String.eqb s "asc"); eauto.
  - intros Hne. rewrite toggleSort_direction.
    destruct (prev !! "sortDirection") as [[s| |]|]; try done.
    destruct (String.eqb_spec s "asc") as [->|]; done.
  - intros Hdir. apply map_eq. intros k.
    destruct (decide (k = "sortDirection")) as [->|Hk].
    + rewrite toggleSort_direction, toggleSort_direction.
      by destruct Hdir as [H | H]; rewrite H.
    + unfold toggleSort. by rewrite !lookup_insert_ne.
Qed.

(** Toggling the same value twice gives back an array that did not hold
    the value; an array that held it ends with the value moved to its
    end, once. *)
Theorem updateArrayFilter_twice key (v : string) prev (l : list string) :
  key ≠ "page" →
  prev !! key = Some (VArr l) →
  ∃ next,
    updateArrayFilter key v prev ≫= updateArrayFilter key v = Ok next
    ∧ (v ∉ l → next !! key = Some (VArr l))
    ∧ (v ∈ l →
       next !! key
       = Some (VArr (List.filter (λ item, negb (String.eqb item v)) l
                     ++ [v])%list)).
Proof.
  intros Hkey Hl.
  rewrite (updateArrayFilter_array key v prev l Hl). simpl.
  set (l1 := if existsb (String.eqb v) l then _ else _).
  set (mid := <["page":=_]> (<[key:=VArr l1]> prev)).
  assert (mid !! key = Some (VArr l1)) as Hmid
    by (unfold mid; by rewrite lookup_insert_ne, lookup_insert_eq).
  rewrite (updateArrayFilter_array key v mid l1 Hmid).
  eexists. split; [done|].
  rewrite lookup_insert_ne, lookup_insert_eq by done. unfold l1.
  split; intros Hv.
  - apply eqb_not_elem_of in Hv as Hb. rewrite Hb.
    assert (existsb (String.eqb v) (l ++ [v]) = true) as ->.
    { apply eqb_elem_of, elem_of_app. right. by apply list_elem_of_singleton. }
    do 2 f_equal. rewrite remove_snoc.
    apply forallb_filter_id, forallb_forall. intros x Hx.
    apply negb_true_iff, String.eqb_neq. intros ->.
    by apply Hv, list_elem_of_In.
  - apply eqb_elem_of in Hv as Hb. rewrite Hb.
    assert (existsb (String.eqb v)
              (List.filter (λ item, negb (String.eqb item v)) l) = false) as ->.
    { apply eqb_not_elem_of. rewrite elem_of_remove. by intros [_ ?]. }
    done.
Qed.

Lemma updateArrayFilter_twice_witness :
  ∃ next,
    updateArrayFilter "status" "draft" (to_object Fixture.page3)
      ≫= updateArrayFilter "status" "draft" = Ok next
    ∧ ("draft" ∉ ["active"; "draft"] →
       next !! "status" = Some (VArr ["active"; "draft"]))
    ∧ ("draft" ∈ ["active"; "draft"] →
       next !! "status"
       = Some (VArr (List.filter (λ item, negb (String.eqb item "draft"))
                       ["active"; "draft"] ++ ["draft"])%list)).
Proof.
  apply (updateArrayFilter_twice "status" "draft" (to_object Fixture.page3)
           ["active"; "draft"]).
  - discriminate.
  - reflexivity.
Defined.

(** An array without a repeated value has none after a toggle: the
    boxes ticked in the panel never hold a value twice. *)
Theorem updateArrayFilter_NoDup key (v : string) prev (l : list string) :
  key ≠ "page" →
  prev !! key = Some (VArr l) →
  NoDup l →
  ∃ next l',
    updateArrayFilter key v prev = Ok next
    ∧ next !! key = Some (VArr l')
    ∧ NoDup l'.
Proof.
  intros Hkey Hl Hnd. eexists _, _.
  split; [by apply updateArrayFilter_array|].
  split; [by rewrite lookup_insert_ne, lookup_insert_eq|].
  destruct (existsb (String.eqb v) l) eqn:E.
  - by apply NoDup_ListNoDup, List.NoDup_filter, NoDup_ListNoDup.
  - apply eqb_not_elem_of in E. apply NoDup_app. repeat split; [done| |].
    + intros x Hx Hx'. apply list_elem_of_singleton in Hx'. by subst.
    + apply NoDup_singleton.
Qed.

Lemma updateArrayFilter_NoDup_witness :
  ∃ next l',
    updateArrayFilter "type" "house" (to_object Fixture.page3) = Ok next
    ∧ next !! "type" = Some (VArr l')
    ∧ NoDup l'.
Proof.
  apply (updateArrayFilter_NoDup "type" "house" (to_object Fixture.page3)
           ["villa"]).
  - discriminate.
  - reflexivity.
  - apply NoDup_singleton.
Defined.

(** Each helper changes the key it is given (or names) and, for the two
    filter helpers, [page]; every other key of the state keeps its
    value. *)
Theorem helpers_change_nothing_else key (k : string) (value_ : value)
  (item : string) prev :
  (k ≠ key → k ≠ "page" → updateFilter key value_ prev !! k = prev !! k)
  ∧ (k ≠ key → k ≠ "page" →
     ∀ next, updateArrayFilter key item prev = Ok next →
             next !! k = prev !! k)
  ∧ (k ≠ "sortDirection" → toggleSort prev !! k = prev !! k)
  ∧ (k ≠ "page" → changePage value_ prev !! k = prev !! k).
Proof.
  repeat split.
  - intros Hk Hp. unfold updateFilter. by rewrite !lookup_insert_ne.
  - intros Hk Hp next. unfold updateArrayFilter.
    destruct (prev !! key) as [[s|n|l]|]; simpl; try done.
    + destruct (includes s item); simpl; [done|].
      intros [= <-]. by rewrite !lookup_insert_ne.
    + destruct (existsb _ l); simpl; intros [= <-];
        by rewrite !lookup_insert_ne.
  - intros Hk. unfold toggleSort. by rewrite lookup_insert_ne.
  - intros Hk. unfold changePage. by rewrite lookup_insert_ne.
Qed.

End helpers_more.

(** ** What the component renders *)

Section view.
Import JsString JsNumber Client View Spec Paging.
Local Open Scope Z_scope.

Implicit Types (locale : string) (filters : FilterState).

Lemma filter_keys_emitted locale filters :
  ("status" ∈ keys (buildQuery locale filters)
     ↔ (0 <? length (status filters))%nat = true)
  ∧ ("type" ∈ keys (buildQuery locale filters)
     ↔ (0 <? length (type filters))%nat = true)
  ∧ ("minPrice" ∈ keys (buildQuery locale filters)
     ↔ gt (minPrice filters) (of_Z 0) = true)
  ∧ ("maxPrice" ∈ keys (buildQuery locale filters)
     ↔ lt (maxPrice filters) (of_Z 1000) = true).
Proof.
  rewrite keys_buildQuery.
  destruct (truthy (trim (search filters))),
           (0 <? length (status filters))%nat,
           (0 <? length (type filters))%nat,
           (gt (minPrice filters) (of_Z 0)),
           (lt (maxPrice filters) (of_Z 1000));
    simpl; rewrite !list_elem_of_In; simpl;
    repeat split; intros; try discriminate; intuition congruence.
Qed.

(** The badge is shown exactly when its count is not zero, and exactly
    when the query carries one of the keys [status], [type], [minPrice]
    and [maxPrice]. *)
Theorem badge_shown_iff locale filters :
  (badge_shown filters = true ↔ (0 < badge_count filters)%nat)
  ∧ (badge_shown filters = true
     ↔ ∃ k, k ∈ ["status"; "type"; "minPrice"; "maxPrice"]
            ∧ k ∈ keys (buildQuery locale filters)).
Proof.
  destruct (filter_keys_emitted locale filters) as (Hs & Ht & Hmin & Hmax).
  unfold badge_shown, badge_count. split.
  - destruct (status filters), (type filters),
      (gt (minPrice filters) (of_Z 0)), (lt (maxPrice filters) (of_Z 1000));
      simpl; split; (done || lia).
  - rewrite !orb_true_iff, <- Hs, <- Ht, <- Hmin, <- Hmax. split.
    + intros [[[H | H] | H] | H]; eexists; (split; [|exact H]);
        rewrite !elem_of_cons; tauto.
    + intros (k & Hk & Hin). rewrite !elem_of_cons, elem_of_nil in Hk.
      destruct Hk as [-> | [-> | [-> | [-> | []]]]]; tauto.
Qed.

(** The buttons keep the page between 1 and [totalPages], for a number
    of pages that is a safe integer: from a page in that range, Previous
    goes one page back unless the page is 1, Next one page on unless the
    page is [totalPages], and a button that is disabled leaves the state
    as it is. *)
Theorem buttons_keep_page_in_range (filters : gmap string value) (P T : Z) :
  filters !! "page" = Some (VNum (of_Z P)) →
  1 ≤ P ≤ T → safe_integer T →
  (∃ P', click_previous (of_Z P) filters !! "page" = Some (VNum (of_Z P'))
         ∧ 1 ≤ P' ≤ T ∧ P' = Z.max 1 (P - 1))
  ∧ (∃ P', click_next (of_Z P) (of_Z T) filters !! "page"
           = Some (VNum (of_Z P'))
           ∧ 1 ≤ P' ≤ T ∧ P' = Z.min T (P + 1)).
Proof.
  intros Hpage HP _. unfold click_previous, click_next.
  unfold previous_disabled, next_disabled, ge. split.
  - destruct (le (of_Z P) (of_Z 1)) eqn:E.
    + apply le_of_Z in E. exists P. rewrite Hpage. split; [done | lia].
    + assert (¬ P ≤ 1) by (rewrite <- le_of_Z; congruence).
      exists (P - 1). unfold changePage.
      rewrite lookup_insert_eq, sub_of_Z. split; [done | lia].
  - destruct (le (of_Z T) (of_Z P)) eqn:E.
    + apply le_of_Z in E. exists P. rewrite Hpage. split; [done | lia].
    + assert (¬ T ≤ P) by (rewrite <- le_of_Z; congruence).
      exists (P + 1). unfold changePage.
      rewrite lookup_insert_eq, add_of_Z. split; [done | lia].
Qed.

Lemma buttons_keep_page_in_range_witness :
  (∃ P', click_previous (of_Z 3) (to_object Fixture.page3) !! "page"
         = Some (VNum (of_Z P'))
         ∧ 1 ≤ P' ≤ 3 ∧ P' = Z.max 1 (3 - 1))
  ∧ (∃ P', click_next (of_Z 3) (of_Z 3) (to_object Fixture.page3) !! "page"
           = Some (VNum (of_Z P'))
           ∧ 1 ≤ P' ≤ 3 ∧ P' = Z.min 3 (3 + 1)).
Proof.
  apply (buttons_keep_page_in_range (to_object Fixture.page3) 3 3).
  - reflexivity.
  - split; discriminate.
  - discriminate.
Defined.

(** The query never carries a key twice, and its keys come in one fixed
    order. *)
Theorem buildQuery_keys_in_order locale filters :
  keys (buildQuery locale filters)
    `sublist_of` ["locale"; "search"; "sortBy"; "sortDirection"; "status";
                  "type"; "minPrice"; "maxPrice"; "page"; "limit"]
  ∧ NoDup (keys (buildQuery locale filters)).
Proof.
  assert (keys (buildQuery locale filters)
            `sublist_of` ["locale"; "search"; "sortBy"; "sortDirection";
                          "status"; "type"; "minPrice"; "maxPrice"; "page";
                          "limit"]) as Hsub.
  { rewrite keys_buildQuery.
    change ["locale"; "search"; "sortBy"; "sortDirection"; "status"; "type";
            "minPrice"; "maxPrice"; "page"; "limit"]
      with (["locale"] ++ ["search"] ++ ["sortBy"; "sortDirection"]
            ++ ["status"] ++ ["type"] ++ ["minPrice"] ++ ["maxPrice"]
            ++ ["page"; "limit"])%list.
    repeat apply sublist_app; try reflexivity;
      match goal with
      | |- (if ?b then _ else _) `sublist_of` _ =>
          destruct b; [reflexivity | apply sublist_nil_l]
      end. }
  split; [done|].
  eapply sublist_NoDup; [|done].
  apply (bool_decide_unpack _). by vm_compute.
Qed.

End view.

(** ** The client's query in the proxy route *)

Section handler.
Import JsString JsNumber Client Spec Paging.
Local Open Scope Z_scope.

Implicit Types (locale : string) (filters : FilterState).

Lemma req_query_lookup (searchParams : list (string * string)) (k : string) :
  Handler.req_query searchParams !! k = Route.get searchParams k.
Proof.
  unfold Handler.req_query.
  induction searchParams as [|[k' v] rest IH]; simpl; [done|].
  destruct (String.eqb_spec k' k) as [->|Hne].
  - apply lookup_insert_eq.
  - by rewrite lookup_insert_ne.
Qed.

Lemma get_locale locale filters :
  Route.get (buildQuery locale filters) "locale" = Some locale.
Proof. by_cases_of_buildQuery. Qed.

Lemma get_sortBy locale filters :
  Route.get (buildQuery locale filters) "sortBy" = Some (sortBy filters).
Proof. by_cases_of_buildQuery. Qed.

Lemma get_sortDirection locale filters :
  Route.get (buildQuery locale filters) "sortDirection"
  = Some (sortDirection filters).
Proof. by_cases_of_buildQuery. Qed.

Lemma get_minPrice locale filters :
  Route.get (buildQuery locale filters) "minPrice"
  = if gt (minPrice filters) (of_Z 0)
    then Some (toString (minPrice filters)) else None.
Proof. by_cases_of_buildQuery. Qed.

Lemma get_maxPrice locale filters :
  Route.get (buildQuery locale filters) "maxPrice"
  = if lt (maxPrice filters) (of_Z 1000)
    then Some (toString (maxPrice filters)) else None.
Proof. by_cases_of_buildQuery. Qed.

Lemma join_empty (l : list string) : join "," l = "" → l = [] ∨ l = [""].
Proof.
  destruct l as [|x [|y l]]; simpl; [by left | by intros -> ; right|].
  destruct x; discriminate.
Qed.

Lemma array_in_handler (l : list string) :
  comma_free l → l ≠ [""] →
  Handler.when_set
    (default "" (if (0 <? length l)%nat then Some (join "," l) else None))
    (split ",")
  = match l with [] => None | _ => Some l end.
Proof.
  intros Hfree Hne. destruct l as [|x l]; [done|].
  change (Handler.when_set (join "," (x :: l)) (split ",") = Some (x :: l)).
  unfold Handler.when_set.
  destruct (truthy (join "," (x :: l))) eqn:E.
  - f_equal. by apply split_join.
  - apply truthy_spec, join_empty in E as [? | ?]; congruence.
Qed.

Lemma number_in_handler (z : Z) (sent : bool) :
  Handler.when_set
    (default "" (if sent then Some (toString (of_Z z)) else None)) parseInt
  = if sent then Some (of_Z z) else None.
Proof.
  destruct sent; [|done].
  change (Handler.when_set (toString (of_Z z)) parseInt = Some (of_Z z)).
  unfold Handler.when_set. by rewrite toString_truthy, parseInt_toString.
Qed.

Lemma gt_of_Z (a b : Z) : gt (of_Z a) (of_Z b) = (b <? a).
Proof.
  unfold gt. destruct (Z.ltb_spec b a) as [H | H].
  - by apply lt_of_Z.
  - destruct (lt (of_Z b) (of_Z a)) eqn:E; [|done].
    apply lt_of_Z in E. lia.
Qed.

(** The proxy route reads the query of the client back, field by field:
    the trimmed search text, the sort field and direction, the status and
    type arrays, a minimum above 0, a maximum below 1000, the page as an
    offset of [(page - 1) * 10] and the limit 10.  A field the client
    leaves out, or sends empty, is a key the query object does not
    have.  The status and type values hold no comma and are not the one
    empty text; the page, the minimum and the maximum are integers, and
    they and the offset are safe integers. *)
Theorem handler_round_trip locale filters (n m M : Z) :
  comma_free (status filters) → status filters ≠ [""] →
  comma_free (type filters) → type filters ≠ [""] →
  page filters = of_Z n → minPrice filters = of_Z m →
  maxPrice filters = of_Z M →
  safe_integer n → safe_integer m → safe_integer M →
  safe_integer ((n - 1) * 10) →
  Handler.locale (Handler.of_filters locale filters) = Some locale
  ∧ Handler.search (Handler.of_filters locale filters)
    = (if truthy (trim (search filters))
       then Some (trim (search filters)) else None)
  ∧ Handler.sortBy (Handler.of_filters locale filters)
    = (if truthy (sortBy filters) then Some (sortBy filters) else None)
  ∧ Handler.sortDirection (Handler.of_filters locale filters)
    = (if truthy (sortDirection filters)
       then Some (sortDirection filters) else None)
  ∧ Handler.status (Handler.of_filters locale filters)
    = match status filters with [] => None | _ => Some (status filters) end
  ∧ Handler.type (Handler.of_filters locale filters)
    = match type filters with [] => None | _ => Some (type filters) end
  ∧ Handler.minPrice (Handler.of_filters locale filters)
    = (if 0 <? m then Some (of_Z m) else None)
  ∧ Handler.maxPrice (Handler.of_filters locale filters)
    = (if M <? 1000 then Some (of_Z M) else None)
  ∧ Handler.limit (Handler.of_filters locale filters) = of_Z 10
  ∧ Handler.offset (Handler.of_filters locale filters)
    = of_Z ((n - 1) * 10).
Proof.
  intros Hst Hst' Hty Hty' Hpage Hmin Hmax _ _ _ _.
  unfold Handler.of_filters, Handler.medusaQuery.
  cbn [Handler.locale Handler.search Handler.sortBy Handler.sortDirection
       Handler.status Handler.type Handler.minPrice Handler.maxPrice
       Handler.limit Handler.offset].
  rewrite !req_query_lookup.
  rewrite get_locale, get_search, get_sortBy, get_sortDirection, get_status,
    get_type, get_minPrice, get_maxPrice, get_page, get_limit.
  rewrite Hpage, Hmin, Hmax.
  change (lt (of_Z M) (of_Z 1000)) with (gt (of_Z 1000) (of_Z M)).
  rewrite !gt_of_Z.
  repeat split.
  - unfold Handler.when_set.
    by destruct (truthy (trim (search filters))) eqn:E; simpl; rewrite ?E.
  - by apply array_in_handler.
  - by apply array_in_handler.
  - apply number_in_handler.
  - apply number_in_handler.
  - change (mul (sub (parseInt (toString (of_Z n))) (of_Z 1)) (of_Z 10)
            = of_Z ((n - 1) * 10)).
    by rewrite parseInt_toString, sub_of_Z, mul_of_Z.
Qed.

Lemma handler_round_trip_witness :
  Handler.locale (Handler.of_filters "en" Fixture.page3) = Some "en"
  ∧ Handler.search (Handler.of_filters "en" Fixture.page3)
    = (if truthy (trim (search Fixture.page3))
       then Some (trim (search Fixture.page3)) else None)
  ∧ Handler.sortBy (Handler.of_filters "en" Fixture.page3)
    = (if truthy (sortBy Fixture.page3)
       then Some (sortBy Fixture.page3) else None)
  ∧ Handler.sortDirection (Handler.of_filters "en" Fixture.page3)
    = (if truthy (sortDirection Fixture.page3)
       then Some (sortDirection Fixture.page3) else None)
  ∧ Handler.status (Handler.of_filters "en" Fixture.page3)
    = match status Fixture.page3 with
      | [] => None
      | _ => Some (status Fixture.page3)
      end
  ∧ Handler.type (Handler.of_filters "en" Fixture.page3)
    = match type Fixture.page3 with
      | [] => None
      | _ => Some (type Fixture.page3)
      end
  ∧ Handler.minPrice (Handler.of_filters "en" Fixture.page3)
    = (if 0 <? 10 then Some (of_Z 10) else None)
  ∧ Handler.maxPrice (Handler.of_filters "en" Fixture.page3)
    = (if 500 <? 1000 then Some (of_Z 500) else None)
  ∧ Handler.limit (Handler.of_filters "en" Fixture.page3) = of_Z 10
  ∧ Handler.offset (Handler.of_filters "en" Fixture.page3)
    = of_Z ((3 - 1) * 10).
Proof.
  apply (handler_round_trip "en" Fixture.page3 3 10 500);
    try reflexivity; try discriminate; repeat constructor.
Defined.

(** On a query that names no key twice and leaves neither [page] nor
    [limit] empty, the two routes ask for the same window: the offset of
    the proxy route is the start of the list route, and their limits are
    the same. *)
Theorem handler_offset_is_start (searchParams : list (string * string)) :
  NoDup (keys searchParams) →
  Route.get searchParams "page" ≠ Some "" →
  Route.get searchParams "limit" ≠ Some "" →
  Handler.offset (Handler.medusaQuery (Handler.req_query searchParams))
    = Route.start (Route.parse searchParams)
  ∧ Handler.limit (Handler.medusaQuery (Handler.req_query searchParams))
    = Route.limit (Route.parse searchParams).
Proof.
  intros _ Hpage Hlimit. unfold Handler.medusaQuery, Route.start, Route.parse.
  cbn [Handler.offset Handler.limit Route.page Route.limit].
  rewrite !req_query_lookup.
  destruct (Route.get searchParams "page") as [[|c s]|],
    (Route.get searchParams "limit") as [[|c' s']|]; done.
Qed.

Lemma handler_offset_is_start_witness :
  Handler.offset
    (Handler.medusaQuery (Handler.req_query [("page", "3"); ("limit", "5")]))
    = Route.start (Route.parse [("page", "3"); ("limit", "5")])
  ∧ Handler.limit
      (Handler.medusaQuery (Handler.req_query [("page", "3"); ("limit", "5")]))
    = Route.limit (Route.parse [("page", "3"); ("limit", "5")]).
Proof.
  apply handler_offset_is_start.
  - apply (bool_decide_unpack _). by vm_compute.
  - discriminate.
  - discriminate.
Defined.

End handler.

(** ** The generic query builder *)

Section generic.
Import JsString JsNumber Client Spec.

Lemma visit_spec (params : list (string * string)) (e : string * value) :
  Generic.visit params e
  = (params ++ if Generic.value_truthy e.2
               then [(e.1, Generic.value_toString e.2)] else [])%list.
Proof.
  destruct e as [k [s|n|l]]; simpl.
  - destruct s; simpl; [by rewrite app_nil_r | done].
  - destruct n as [| | |q]; simpl; try done; try by rewrite app_nil_r.
    destruct (Qeq_bool q 0); simpl; [by rewrite app_nil_r | done].
  - by destruct (0 <? length l)%nat.
Qed.

Lemma foldl_visit (params : list (string * string))
  (filters : list (string * value)) :
  foldl Generic.visit params filters
  = (params
     ++ map (λ e, (e.1, Generic.value_toString e.2))
          (List.filter (λ e, Generic.value_truthy e.2) filters))%list.
Proof.
  revert params. induction filters as [|e filters IH]; intros params; simpl.
  - by rewrite app_nil_r.
  - rewrite IH, visit_spec.
    destruct (Generic.value_truthy e.2); simpl; by rewrite <- app_assoc.
Qed.

(** The generic builder emits, in the order of the entries, exactly the
    entries whose value is truthy, each with the text of its value.  The
    tests against the empty string and zero change nothing, and both
    branches print an array the same way; so every array is emitted, an
    empty one with the empty value, and the [status] and [type] of the
    state are always in the query. *)
Theorem generic_buildQuery_emits_truthy (filters : list (string * value)) :
  Generic.buildQuery filters
  = map (λ e, (e.1, Generic.value_toString e.2))
      (List.filter (λ e, Generic.value_truthy e.2) filters)
  ∧ (∀ k, (k, VArr []) ∈ filters → (k, "") ∈ Generic.buildQuery filters)
  ∧ (∀ f : FilterState,
       "status" ∈ keys (Generic.buildQuery (Generic.entries f))
       ∧ "type" ∈ keys (Generic.buildQuery (Generic.entries f))).
Proof.
  assert (∀ fl, Generic.buildQuery fl
                = map (λ e, (e.1, Generic.value_toString e.2))
                    (List.filter (λ e, Generic.value_truthy e.2) fl)) as Hspec
    by (intros fl; unfold Generic.buildQuery; by rewrite foldl_visit).
  split; [done|]. split.
  - intros k Hk. rewrite Hspec.
    apply (list_elem_of_fmap_2' (λ e, (e.1, Generic.value_toString e.2))
             _ (k, VArr [])); [|done].
    rewrite list_elem_of_In, filter_In, <- list_elem_of_In. by split.
  - intros f. rewrite Hspec. unfold keys, Generic.entries. simpl.
    destruct (truthy (search f)), (truthy (sortBy f)),
      (truthy (sortDirection f)), (Generic.number_truthy (minPrice f)),
      (Generic.number_truthy (maxPrice f)), (Generic.number_truthy (page f));
      simpl; rewrite !list_elem_of_In; simpl; tauto.
Qed.

End generic.

(** ** Instances of the further properties *)

Section further_examples.
Import JsString JsNumber Route Spec Paging.
Local Open Scope Z_scope.

Lemma sorted_by_key_witness :
  StronglySorted
    (key_order Fixture.no_date (parse [("sort_by", "price"); ("order", "asc")]))
    (sorted Fixture.no_date (parse [("sort_by", "price"); ("order", "asc")])
       [Fixture.villa; Fixture.flat; Fixture.cottage]).
Proof.
  apply (sorted_by_key Fixture.no_date
           (parse [("sort_by", "price"); ("order", "asc")])
           [Fixture.villa; Fixture.flat; Fixture.cottage]).
  - left. reflexivity.
  - repeat constructor; discriminate.
Defined.

Lemma sorted_idempotent_witness :
  sorted Fixture.no_date (parse [("sort_by", "price"); ("order", "asc")])
    (sorted Fixture.no_date (parse [("sort_by", "price"); ("order", "asc")])
       [Fixture.villa; Fixture.flat; Fixture.cottage])
  = sorted Fixture.no_date (parse [("sort_by", "price"); ("order", "asc")])
      [Fixture.villa; Fixture.flat; Fixture.cottage].
Proof.
  apply (sorted_idempotent Fixture.no_date
           (parse [("sort_by", "price"); ("order", "asc")])
           [Fixture.villa; Fixture.flat; Fixture.cottage]).
  - left. reflexivity.
  - repeat constructor; discriminate.
Defined.

Lemma sorted_other_order_witness :
  sorted Fixture.no_date (parse [("sort_by", "price"); ("order", "ASC")])
    [Fixture.villa; Fixture.flat]
  = sorted Fixture.no_date
      (with_order (parse [("sort_by", "price"); ("order", "ASC")]) "desc")
      [Fixture.villa; Fixture.flat].
Proof.
  apply (sorted_other_order Fixture.no_date
           (parse [("sort_by", "price"); ("order", "ASC")])).
  discriminate.
Defined.

Lemma paginated_from_page_one_witness :
  paginated (parse [("page", "2"); ("limit", "1")])
    [Fixture.villa; Fixture.flat]
  = take (Z.to_nat 1) (drop (Z.to_nat ((2 - 1) * 1))
                         [Fixture.villa; Fixture.flat]).
Proof.
  apply (paginated_from_page_one (parse [("page", "2"); ("limit", "1")])
           [Fixture.villa; Fixture.flat] 2 1); try reflexivity; discriminate.
Defined.

Lemma paginated_length_witness :
  Z.of_nat (length (paginated (parse [("page", "1"); ("limit", "1")])
                      [Fixture.villa; Fixture.flat])) ≤ 1
  ∧ (1 ≤ 1 < 2 →
     Z.of_nat (length (paginated (parse [("page", "1"); ("limit", "1")])
                         [Fixture.villa; Fixture.flat])) = 1).
Proof.
  apply (paginated_length (parse [("page", "1"); ("limit", "1")])
           [Fixture.villa; Fixture.flat] 1 1 2); reflexivity.
Defined.

Lemma paginated_nonempty_iff_witness :
  paginated (parse [("page", "2"); ("limit", "1")])
    [Fixture.villa; Fixture.flat] ≠ []
  ↔ le (page (parse [("page", "2"); ("limit", "1")]))
       (totalPages (parse [("page", "2"); ("limit", "1")])
          [Fixture.villa; Fixture.flat]) = true.
Proof.
  apply (paginated_nonempty_iff (parse [("page", "2"); ("limit", "1")])
           [Fixture.villa; Fixture.flat] 2 1); try reflexivity; discriminate.
Defined.

Lemma totalPages_least_witness :
  ∃ T, totalPages (parse [("limit", "2")])
         [Fixture.villa; Fixture.flat; Fixture.cottage] = of_Z T
       ∧ Z.of_nat (length [Fixture.villa; Fixture.flat; Fixture.cottage])
         ≤ T * 2
         < Z.of_nat (length [Fixture.villa; Fixture.flat; Fixture.cottage])
           + 2.
Proof.
  apply (totalPages_least (parse [("limit", "2")])
           [Fixture.villa; Fixture.flat; Fixture.cottage] 2); reflexivity.
Defined.

Lemma pages_cover_witness :
  concat (pages (parse [("limit", "2")])
            [Fixture.villa; Fixture.flat; Fixture.cottage] 2)
  = [Fixture.villa; Fixture.flat; Fixture.cottage].
Proof.
  apply (pages_cover (parse [("limit", "2")])
           [Fixture.villa; Fixture.flat; Fixture.cottage] 2 2); reflexivity.
Defined.

Lemma GET_response_sound_witness :
  (∀ p, p ∈ resp_data Fixture.villa_only →
        p ∈ [Fixture.villa; Fixture.flat]
        ∧ satisfies (parse [("min_price", "60")]) p)
  ∧ (length (resp_data Fixture.villa_only)
     ≤ length [Fixture.villa; Fixture.flat])%nat
  ∧ ∃ f : property → bool,
      (∀ p, f p = true ↔ satisfies (parse [("min_price", "60")]) p)
      ∧ resp_total Fixture.villa_only
        = of_nat (length (List.filter f [Fixture.villa; Fixture.flat])).
Proof.
  apply (GET_response_sound Fixture.no_date [Fixture.villa; Fixture.flat]
           [("min_price", "60")] Fixture.villa_only).
  reflexivity.
Defined.

End further_examples.
